(** * FastStream: AsyncAPI naming helpers, payload resolution, publisher binding

    A shallow embedding of

    - [faststream/specification/asyncapi/utils.py]
      ([to_camelcase], [resolve_payloads], [clear_key]), and
    - the publisher protocol of [faststream/_internal/publisher/proto.py].

    Python strings are embedded as [string] (sequences of 8-bit characters).
    [str.replace], [str.split] and [str.join] with one-character ASCII
    arguments act on the UTF-8 encoding exactly as they act on code points;
    [str.title] is embedded on the ASCII letters (every other character is
    uncased).

    Python dictionaries are mutable objects that are passed by reference:
    [resolve_payloads] writes into the schema objects it is given, and the
    same object may occur in several pairs. The embedding therefore keeps an
    explicit store of dictionaries addressed by location. *)

From Stdlib Require Import ZArith Ascii String.
From stdpp Require Import base list strings.

Local Open Scope Z_scope.
Local Open Scope nat_scope.

(* ===================================================================== *)
(** ** Python string methods *)
(* ===================================================================== *)

Module PyStr.

(** [s.replace(old, new)] for a one-character [old]. *)
Fixpoint replace (old : ascii) (new : string) (s : string) : string :=
  match s with
  | EmptyString => EmptyString
  | String c r =>
      if Ascii.eqb c old then new +:+ replace old new r
      else String c (replace old new r)
  end.

(** [s.split(sep)] for a one-character [sep]: never returns the empty
    list, and keeps empty segments. *)
Fixpoint split (sep : ascii) (s : string) : list string :=
  match s with
  | EmptyString => [EmptyString]
  | String c r =>
      if Ascii.eqb c sep then EmptyString :: split sep r
      else match split sep r with
           | w :: ws => String c w :: ws
           | [] => [String c EmptyString]
           end
  end.

(** [sep.join(parts)]. *)
Fixpoint join (sep : string) (parts : list string) : string :=
  match parts with
  | [] => EmptyString
  | [w] => w
  | w :: ws => w +:+ sep +:+ join sep ws
  end.

(** [bool(s)] on a string: true exactly when it is not empty. *)
Definition truthy (s : string) : bool :=
  match s with
  | EmptyString => false
  | String _ _ => true
  end.

Definition is_upper (c : ascii) : bool :=
  let n := nat_of_ascii c in (65 <=? n) && (n <=? 90).

Definition is_lower (c : ascii) : bool :=
  let n := nat_of_ascii c in (97 <=? n) && (n <=? 122).

Definition is_cased (c : ascii) : bool := is_upper c || is_lower c.

Definition to_upper (c : ascii) : ascii :=
  if is_lower c then ascii_of_nat (nat_of_ascii c - 32) else c.

Definition to_lower (c : ascii) : ascii :=
  if is_upper c then ascii_of_nat (nat_of_ascii c + 32) else c.

(** [s.title()]: a cased character is upper-cased when the character
    before it is uncased (or there is none), lower-cased otherwise;
    uncased characters are copied. The cased characters here are the ASCII
    letters: this is [str.title] on ASCII text only, and what is stated
    about the letters it produces is stated for ASCII names. *)
Fixpoint title_from (previous_is_cased : bool) (s : string) : string :=
  match s with
  | EmptyString => EmptyString
  | String c r =>
      if is_cased c
      then String (if previous_is_cased then to_lower c else to_upper c)
                  (title_from true r)
      else String c (title_from false r)
  end.

Definition title (s : string) : string := title_from false s.

(** [c in s] for a character. *)
Fixpoint contains (c : ascii) (s : string) : bool :=
  match s with
  | EmptyString => false
  | String d r => Ascii.eqb d c || contains c r
  end.

End PyStr.

(* ===================================================================== *)
(** ** [utils.py]: key and name helpers *)
(* ===================================================================== *)

(** [to_camelcase]: the names are joined with one space, every underscore
    becomes a space, the text is title-cased, every space is removed. *)
Definition to_camelcase (names : list string) : string :=
  PyStr.replace " " EmptyString
    (PyStr.title (PyStr.replace "_" " " (PyStr.join " " names))).

(** [clear_key]: [key.replace("/", ".")]. *)
Definition clear_key (key : string) : string :=
  PyStr.replace "/" "." key.

(** Text made of ASCII characters only. *)
Fixpoint is_ascii (s : string) : bool :=
  match s with
  | EmptyString => true
  | String c r => (nat_of_ascii c <? 128) && is_ascii r
  end.

(** The two alphabets, letter by letter in the same order. *)
Definition lower_letters : string := "abcdefghijklmnopqrstuvwxyz".
Definition upper_letters : string := "ABCDEFGHIJKLMNOPQRSTUVWXYZ".

(** The character standing in [to] where [c] stands in [from]; [c] itself
    when it does not occur in [from]. *)
Fixpoint translate (from to : string) (c : ascii) : ascii :=
  match from, to with
  | String f from', String t to' =>
      if Ascii.eqb c f then t else translate from' to' c
  | _, _ => c
  end.

(** The upper-case and the lower-case form of a letter, by the alphabets;
    other characters are left as they are. *)
Definition upper_of (c : ascii) : ascii :=
  translate lower_letters upper_letters c.

Definition lower_of (c : ascii) : ascii :=
  translate upper_letters lower_letters c.

(** A letter is a character that has another case. *)
Definition is_letter (c : ascii) : bool :=
  negb (Ascii.eqb (upper_of c) c) || negb (Ascii.eqb (lower_of c) c).

(** Title-casing a word as the specification means it: a letter that does
    not follow a letter is put in upper case, a letter that follows a
    letter in lower case; nothing else changes. *)
Fixpoint capitalize_from (after_letter : bool) (w : string) : string :=
  match w with
  | EmptyString => EmptyString
  | String c r =>
      String (if after_letter then lower_of c else upper_of c)
             (capitalize_from (is_letter c) r)
  end.

Definition title_word (w : string) : string := capitalize_from false w.

(** The words of a name: the pieces between its spaces and underscores. *)
Fixpoint cut_words (s : string) : list string :=
  match s with
  | EmptyString => [EmptyString]
  | String c r =>
      if Ascii.eqb c " " || Ascii.eqb c "_"
      then EmptyString :: cut_words r
      else match cut_words r with
           | w :: ws => String c w :: ws
           | [] => [String c EmptyString]
           end
  end.

(** Camel-casing as the specification words it, without the string
    methods of the code: the words of all the names, each title-cased,
    written one after the other with nothing in between. *)
Definition camelcase_as_specified (names : list string) : string :=
  String.concat EmptyString (map title_word (flat_map cut_words names)).

(** The camel-casing transform as the specification words it: the joined
    and underscore-free text is cut into words at the spaces, each word is
    title-cased, and the words are glued together without separator. *)
Definition camelcase_by_words (names : list string) : string :=
  PyStr.join EmptyString
    (map PyStr.title
       (PyStr.split " " (PyStr.replace "_" " " (PyStr.join " " names)))).

(* ===================================================================== *)
(** ** Python objects: values, dictionaries, the store *)
(* ===================================================================== *)

(** A location names one dictionary object; two references are the same
    object exactly when their locations are equal. *)
Abbreviation loc := nat (only parsing).

(** The values an [AnyDict] may hold, as far as [resolve_payloads] can tell
    them apart: only a [str] has a [split] method. *)
Inductive value : Type :=
  | VNone
  | VBool (b : bool)
  | VInt (z : Z)
  | VStr (s : string)
  | VRef (l : loc).

(** A [dict] with string keys, in insertion order. *)
Abbreviation dict := (list (string * value)) (only parsing).

(** [d.get(k)]: the value bound to [k], if any. *)
Fixpoint dict_get (k : string) (d : dict) : option value :=
  match d with
  | [] => None
  | (k', v) :: r => if String.eqb k' k then Some v else dict_get k r
  end.

(** [d[k] = v]: an existing key keeps its position and takes the new value,
    a new key is appended. *)
Fixpoint dict_set (k : string) (v : value) (d : dict) : dict :=
  match d with
  | [] => [(k, v)]
  | (k', v') :: r =>
      if String.eqb k' k then (k', v) :: r else (k', v') :: dict_set k v r
  end.

(** The store: the dictionary object at each location. *)
Abbreviation heap := (list dict) (only parsing).

Inductive exn : Type :=
  | KeyError (k : string)
  | AttributeError
  | IndexError
  | NoSuchObject.   (* a location outside the store; cannot arise in Python *)

(** Computations that read and write the store and may raise. The store is
    returned in both cases: writes done before an exception stay done. *)
Definition M (A : Type) : Type := heap -> (exn + A) * heap.

Definition ret {A} (a : A) : M A := fun h => (inr a, h).

Definition raise {A} (e : exn) : M A := fun h => (inl e, h).

Definition bind {A B} (m : M A) (k : A -> M B) : M B :=
  fun h =>
    match m h with
    | (inl e, h') => (inl e, h')
    | (inr a, h') => k a h'
    end.

Declare Scope py_scope.
Delimit Scope py_scope with py.
Notation "x <- c1 ;; c2" := (bind c1 (fun x => c2))
  (at level 100, c1 at next level, right associativity) : py_scope.
Notation "c1 ;; c2" := (bind c1 (fun _ => c2))
  (at level 100, right associativity) : py_scope.

(** A dictionary display [{...}]: a new object at a fresh location. *)
Definition new_dict (d : dict) : M loc :=
  fun h => (inr (length h), h ++ [d]).

(** [obj[k]]. *)
Definition getitem (l : loc) (k : string) : M value :=
  fun h =>
    match h !! l with
    | None => (inl NoSuchObject, h)
    | Some d =>
        match dict_get k d with
        | Some v => (inr v, h)
        | None => (inl (KeyError k), h)
        end
    end.

(** [obj[k] = v]. *)
Definition setitem (l : loc) (k : string) (v : value) : M unit :=
  fun h =>
    match h !! l with
    | None => (inl NoSuchObject, h)
    | Some d => (inr tt, <[l := dict_set k v d]> h)
    end.

(** Looking up a [str] method on a value. *)
Definition str_receiver (v : value) : M string :=
  match v with
  | VStr s => ret s
  | _ => raise AttributeError
  end.

(** [l[start:]] on a list, for any integer [start]. *)
Definition slice_from {A} (start : Z) (l : list A) : list A :=
  let n := Z.of_nat (length l) in
  let i := if (start <? 0)%Z then Z.max 0 (start + n) else Z.min start n in
  drop (Z.to_nat i) l.

(** [x in l] on a list of strings. *)
Definition str_in (x : string) (l : list string) : bool :=
  existsb (String.eqb x) l.

(* ===================================================================== *)
(** ** [utils.py]: [resolve_payloads] *)
(* ===================================================================== *)

Local Open Scope py_scope.

(** The title built at lines 26-35 from the segments [words] of the
    current title. *)
Definition composite_title (extra : string) (served_words : Z)
    (handler_name : string) (words : list string) : string :=
  PyStr.join ":"
    (List.filter PyStr.truthy
       (handler_name
        :: (if negb (str_in extra words) then extra else EmptyString)
        :: slice_from served_words words)).

(** Lines 22-35: read the title of [body], rewrite it in place when it
    has more than one segment, and yield the title to use as key. *)
Definition resolve_title (extra : string) (served_words : Z)
    (body : loc) (handler_name : string) : M string :=
  v <- getitem body "title" ;;
  title <- str_receiver v ;;
  let words := PyStr.split ":" title in
  if 1 <? length words
  then
    let title' := composite_title extra served_words handler_name words in
    setitem body "title" (VStr title') ;;
    ret title'
  else ret title.

(** The [for] loop of lines 21-37 over what is left of [payloads]. *)
Fixpoint payload_loop (extra : string) (served_words : Z)
    (one_of_payloads : loc) (payloads : list (loc * string)) : M unit :=
  match payloads with
  | [] => ret tt
  | (body, handler_name) :: rest =>
      title <- resolve_title extra served_words body handler_name ;;
      setitem one_of_payloads title (VRef body) ;;
      payload_loop extra served_words one_of_payloads rest
  end.

(** [resolve_payloads(payloads, extra, served_words)]; the defaults of the
    last two are the empty string and [1]. *)
Definition resolve_payloads (payloads : list (loc * string))
    (extra : string) (served_words : Z) : M loc :=
  let ln := length payloads in
  if 1 <? ln then
    one_of_payloads <- new_dict [] ;;
    payload_loop extra served_words one_of_payloads payloads ;;
    new_dict [("oneOf", VRef one_of_payloads)]
  else if ln =? 1 then
    match payloads with
    | p :: _ => ret (fst p)
    | [] => raise IndexError
    end
  else new_dict [].

Local Close Scope py_scope.

(* ===================================================================== *)
(** ** Reading a run of [resolve_payloads] *)
(* ===================================================================== *)

(** The ["title"] entry of the object at [b], if there is one. *)
Definition title_of (h : heap) (b : loc) : option value :=
  match h !! b with
  | Some d => dict_get "title" d
  | None => None
  end.

(** The object at [b] exists and its ["title"] is a [str]. *)
Definition has_title (h : heap) (b : loc) : bool :=
  match title_of h b with
  | Some (VStr _) => true
  | _ => false
  end.

(** Every pair holds a schema object of the store with a [str] title: the
    schema pairs of the data model. *)
Definition titled (h : heap) (payloads : list (loc * string)) : bool :=
  forallb (fun p => has_title h (fst p)) payloads.

(** The titles the pairs resolve to, in input order: the loop of
    [resolve_payloads] without its line 37, so that each title is paired
    with the schema it was computed for instead of being used as a key. *)
Fixpoint resolve_titles (extra : string) (served_words : Z)
    (payloads : list (loc * string)) : M (list (string * loc)) :=
  match payloads with
  | [] => ret []
  | (body, handler_name) :: rest =>
      (title <- resolve_title extra served_words body handler_name ;;
       entries <- resolve_titles extra served_words rest ;;
       ret ((title, body) :: entries))%py
  end.

(** Line 37 performed for a list of (title, schema) entries in order,
    starting from the dictionary [d]. *)
Definition dict_of_entries (entries : list (string * loc)) (d : dict) : dict :=
  fold_left (fun acc e => dict_set (fst e) (VRef (snd e)) acc) entries d.

(** The rewritten title as the specification words it: the [":"]-join of
    the non-empty members of the handler name, the extra marker unless it
    is one of the segments of [title], and the segments of [title] after
    the first [served_words] of them. *)
Definition title_as_specified (extra : string) (served_words : nat)
    (handler_name title : string) : string :=
  let segments := PyStr.split ":" title in
  let marker := if bool_decide (extra ∈ segments) then [] else [extra] in
  PyStr.join ":"
    (List.filter (fun w => negb (String.eqb w EmptyString))
       ([handler_name] ++ marker ++ drop served_words segments)).

(** Every key of [mapping] is bound to a schema object of [h] whose
    ["title"] is that key. *)
Definition keys_are_titles (h : heap) (mapping : dict) : Prop :=
  forall (k : string) (v : value),
    dict_get k mapping = Some v ->
    exists b : loc, v = VRef b /\ title_of h b = Some (VStr k).

(** [d'] has the keys of [d] in the same order and the same value under
    every key other than ["title"]. *)
Definition same_but_title (d d' : dict) : Prop :=
  map fst d' = map fst d
  /\ forall k : string, k <> "title" -> dict_get k d' = dict_get k d.

(** The title of [d] is a [str] without [":"]. *)
Definition plain_title (d : dict) : Prop :=
  exists t : string,
    dict_get "title" d = Some (VStr t) /\ PyStr.contains ":" t = false.

(** What a run that visits the objects [touched] and fills the mapping
    [one_of] may do to the other objects of the store [s]. *)
Definition store_effect (one_of : loc) (touched : list loc) (s s' : heap)
  : Prop :=
  length s' = length s
  /\ forall (b : loc) (d : dict),
       b <> one_of -> s !! b = Some d ->
       exists d' : dict,
         s' !! b = Some d'
         /\ same_but_title d d'
         /\ (b ∉ touched -> d' = d)
         /\ (plain_title d -> d' = d).

(* ===================================================================== *)
(** ** [proto.py]: producers and publishers *)
(* ===================================================================== *)

Module Publisher.

(** [PublishCommand], as far as the protocol methods look at it. *)
Record PublishCommand : Type := {
  body : string;
  destination : string;
  correlation_id : option string;
}.

(** The three abstract methods of [ProducerProto]. *)
Inductive producer_method : Type :=
  | m_publish
  | m_request
  | m_publish_batch.

(** One call that reached a producer. *)
Definition transport_call : Type := producer_method * PublishCommand.

Inductive error : Type :=
  | NotReady
  | Transport (what : string)
  | Timeout.

(** Publisher-side computations: they see the calls made on the producer
    so far and may add to them. *)
Definition T (A : Type) : Type :=
  list transport_call -> (error + A) * list transport_call.

(** [class ProducerProto(Protocol)]: what a backend answers to each
    method; the transport itself stays outside the model. *)
Record ProducerProto : Type := {
  on_publish : PublishCommand -> error + option string;
  on_request : PublishCommand -> error + option string;
  on_publish_batch : PublishCommand -> error + option string;
}.

(** Calling a method of a producer: the call is recorded, then answered. *)
Definition call_producer (p : ProducerProto) (m : producer_method)
    (cmd : PublishCommand) : T (option string) :=
  fun log =>
    (match m with
     | m_publish => on_publish p cmd
     | m_request => on_request p cmd
     | m_publish_batch => on_publish_batch p cmd
     end,
     log ++ [(m, cmd)]).

(** A publish-side middleware wraps the inner call. *)
Definition PublisherMiddleware : Type :=
  (PublishCommand -> T (option string)) -> PublishCommand -> T (option string).

(** The fields [PublisherProto] declares. *)
Record PublisherProto : Type := {
  _broker_middlewares : list PublisherMiddleware;
  _middlewares : list PublisherMiddleware;
  _producer : option ProducerProto;
}.

(** Modelled from the spec: a publisher as it is declared, before the
    broker binds it; section 3 of the specification has the producer
    reference absent until then. *)
Definition declared (broker_mws mws : list PublisherMiddleware)
  : PublisherProto :=
  {| _broker_middlewares := broker_mws;
     _middlewares := mws;
     _producer := None |}.

(** Modelled from the spec: [_setup] is abstract in [proto.py]; section 4.2
    of the specification has it bind the producer. The declared signature
    [producer: Optional[ProducerProto]] admits [None]. *)
Definition _setup (self : PublisherProto) (producer : option ProducerProto)
  : PublisherProto :=
  {| _broker_middlewares := _broker_middlewares self;
     _middlewares := _middlewares self;
     _producer := producer |}.

(** Modelled from the spec: [add_middleware] is abstract in [proto.py];
    section 4.2 of the specification has it append to the publisher's own
    middlewares. *)
Definition add_middleware (self : PublisherProto) (mw : PublisherMiddleware)
  : PublisherProto :=
  {| _broker_middlewares := _broker_middlewares self;
     _middlewares := _middlewares self ++ [mw];
     _producer := _producer self |}.

(** Modelled from the spec: the bodies of [publish], [_publish] and
    [request] are abstract in [proto.py] and their implementations are not
    among the sources. Section 4.2 of the specification: a call before
    [_setup] fails with a not-ready error and attempts no transport call;
    after binding, [_publish] nests broker middlewares outermost, then the
    publisher's, then the call-scoped extras around the producer call;
    [publish] dispatches with no extras; [request] calls the producer's
    [request] directly. *)
Definition _publish (self : PublisherProto) (cmd : PublishCommand)
    (_extra_middlewares : list PublisherMiddleware) : T (option string) :=
  match _producer self with
  | None => fun log => (inl NotReady, log)
  | Some p =>
      fold_right (fun mw inner => mw inner) (call_producer p m_publish)
        (_broker_middlewares self ++ _middlewares self ++ _extra_middlewares)
        cmd
  end.

(** Modelled from the spec: see [_publish]. *)
Definition publish (self : PublisherProto) (message : string)
    (cid : option string) : T (option string) :=
  _publish self
    {| body := message; destination := EmptyString; correlation_id := cid |}
    [].

(** Modelled from the spec: see [_publish]. *)
Definition request (self : PublisherProto) (message : string)
    (cid : option string) : T (option string) :=
  match _producer self with
  | None => fun log => (inl NotReady, log)
  | Some p =>
      call_producer p m_request
        {| body := message; destination := EmptyString;
           correlation_id := cid |}
  end.

End Publisher.

(* ===================================================================== *)
(** * Properties *)
(* ===================================================================== *)

(** ** Sample runs *)

Example to_camelcase_ex1 : to_camelcase ["order_created"] = "OrderCreated".
Proof. reflexivity. Qed.
Example to_camelcase_ex2 : to_camelcase ["a"; "b_c"] = "ABC".
Proof. reflexivity. Qed.
Example to_camelcase_ex3 : to_camelcase ["myHANDLER"; "x1y"] = "MyhandlerX1Y".
Proof. reflexivity. Qed.
Example clear_key_ex1 : clear_key "a/b/c" = "a.b.c".
Proof. reflexivity. Qed.
Example split_ex1 : PyStr.split ":" "A:B:C" = ["A"; "B"; "C"].
Proof. reflexivity. Qed.
Example split_ex2 : PyStr.split ":" ":" = [EmptyString; EmptyString].
Proof. reflexivity. Qed.

Example resolve_ex1 :
  resolve_payloads [(0, "h"); (1, "g")] "E" 1
    [[("title", VStr "A:B:C")]; [("title", VStr "Model"); ("type", VStr "object")]]
  = (inr 3,
     [[("title", VStr "h:E:B:C")];
      [("title", VStr "Model"); ("type", VStr "object")];
      [("h:E:B:C", VRef 0); ("Model", VRef 1)];
      [("oneOf", VRef 2)]]).
Proof. reflexivity. Qed.

Example resolve_ex2 :
  resolve_payloads [(0, "h1"); (0, "h2")] "A" 1 [[("title", VStr "A:B")]]
  = (inr 2,
     [[("title", VStr "h2:A:B")];
      [("h1:B", VRef 0); ("h2:A:B", VRef 0)];
      [("oneOf", VRef 1)]]).
Proof. reflexivity. Qed.

(** A schema without a title raises at line 22; the title written for the
    pair before it stays written. *)
Example resolve_missing_title :
  resolve_payloads [(0, "h"); (1, "g")] EmptyString 1
    [[("title", VStr "A:B")]; [("type", VStr "object")]]
  = (inl (KeyError "title"),
     [[("title", VStr "h:B")]; [("type", VStr "object")];
      [("h:B", VRef 0)]]).
Proof. reflexivity. Qed.

(** A negative [served_words] keeps that many trailing segments. *)
Example resolve_negative_served_words :
  fst (resolve_title EmptyString (-1) 0 "h" [[("title", VStr "A:B:C")]])
  = inr "h:C".
Proof. reflexivity. Qed.

(* ===================================================================== *)
(** ** Strings *)
(* ===================================================================== *)

Section StringFacts.

Implicit Types (c d : ascii) (s w : string) (ws : list string).

Lemma append_cons c s w : String c s +:+ w = String c (s +:+ w).
Proof. reflexivity. Qed.

Lemma append_empty_l s : EmptyString +:+ s = s.
Proof. reflexivity. Qed.

Lemma append_empty_r s : s +:+ EmptyString = s.
Proof.
  induction s as [|c s IH]; [reflexivity | now rewrite append_cons, IH].
Qed.

Local Ltac norm := rewrite ?append_cons, ?append_empty_l.

Lemma join_empty_cons w ws :
  PyStr.join EmptyString (w :: ws) = w +:+ PyStr.join EmptyString ws.
Proof.
  destruct ws as [|w' ws]; cbn [PyStr.join];
    [now rewrite append_empty_r | reflexivity].
Qed.

Lemma split_not_nil c s : PyStr.split c s <> [].
Proof.
  induction s as [|d s IH]; simpl; [discriminate|].
  destruct (Ascii.eqb d c); [discriminate|].
  destruct (PyStr.split c s); discriminate.
Qed.

(** A string without the separator is its own single segment. *)
Lemma split_no_sep c s :
  PyStr.contains c s = false -> PyStr.split c s = [s].
Proof.
  induction s as [|d s IH]; simpl; [reflexivity|].
  destruct (Ascii.eqb d c); simpl; [discriminate|].
  intros H. now rewrite (IH H).
Qed.

(** Replacing one character by another is a character-wise map. *)
Lemma replace_get old new s i :
  String.get i (PyStr.replace old (String new EmptyString) s)
  = (fun c => if Ascii.eqb c old then new else c) <$> String.get i s.
Proof.
  revert i. induction s as [|c s IH]; intros i; simpl; [reflexivity|].
  destruct (Ascii.eqb c old) eqn:E; norm;
    (destruct i as [|i]; simpl; [now rewrite ?E | apply IH]).
Qed.

Lemma replace_removes old new s :
  Ascii.eqb new old = false ->
  PyStr.contains old (PyStr.replace old (String new EmptyString) s) = false.
Proof.
  intros Hne. induction s as [|c s IH]; simpl; [reflexivity|].
  destruct (Ascii.eqb c old) eqn:E; norm; simpl;
    [now rewrite Hne | now rewrite E].
Qed.

Lemma replace_absent old new s :
  PyStr.contains old s = false -> PyStr.replace old new s = s.
Proof.
  induction s as [|c s IH]; simpl; [reflexivity|].
  destruct (Ascii.eqb c old); simpl; [discriminate|].
  intros H. now rewrite (IH H).
Qed.

Lemma delete_removes old s :
  PyStr.contains old (PyStr.replace old EmptyString s) = false.
Proof.
  induction s as [|c s IH]; simpl; [reflexivity|].
  destruct (Ascii.eqb c old) eqn:E; norm; simpl; [exact IH | now rewrite E].
Qed.

Lemma delete_keeps_absent old c s :
  PyStr.contains c s = false ->
  PyStr.contains c (PyStr.replace old EmptyString s) = false.
Proof.
  induction s as [|d s IH]; simpl; [reflexivity|].
  intros H. apply orb_false_iff in H as [H1 H2].
  destruct (Ascii.eqb d old); norm; simpl; [auto | rewrite H1; auto].
Qed.

(** What [title] writes for a character is never a space or an
    underscore unless it read one. *)
Lemma title_char_sep (b : bool) c d :
  d = " "%char \/ d = "_"%char ->
  Ascii.eqb
    (if PyStr.is_cased c
     then (if b then PyStr.to_lower c else PyStr.to_upper c) else c) d
  = Ascii.eqb c d.
Proof.
  intros [-> | ->]; destruct b;
    destruct c as [[] [] [] [] [] [] [] []]; reflexivity.
Qed.

Lemma title_keeps_absent (b : bool) d s :
  d = " "%char \/ d = "_"%char ->
  PyStr.contains d (PyStr.title_from b s) = PyStr.contains d s.
Proof.
  intros Hd. revert b. induction s as [|c s IH]; intros b; simpl;
    [reflexivity|].
  generalize (title_char_sep b c d Hd).
  destruct (PyStr.is_cased c); simpl; intros Hc; rewrite IH; now f_equal.
Qed.

(** Title-casing a text and deleting its spaces title-cases the words
    between the spaces one by one; [b] tells whether a cased character
    precedes the text. *)
Lemma title_by_words (b : bool) s :
  PyStr.replace " " EmptyString (PyStr.title_from b s)
  = match PyStr.split " " s with
    | w :: ws =>
        PyStr.title_from b w +:+ PyStr.join EmptyString (map PyStr.title ws)
    | [] => EmptyString
    end.
Proof.
  revert b. induction s as [|c s IH]; intros b; [reflexivity|].
  cbn [PyStr.split PyStr.title_from].
  generalize (title_char_sep b c " "%char (or_introl eq_refl)).
  specialize (IH (PyStr.is_cased c)).
  destruct (PyStr.split " " s) as [|w ws] eqn:Es;
    [now destruct (split_not_nil _ _ Es)|].
  destruct (Ascii.eqb c " ") eqn:E.
  - apply Ascii.eqb_eq in E. subst c. intros _.
    change (PyStr.is_cased " ") with false in *.
    cbn [PyStr.replace Ascii.eqb Bool.eqb]. norm. rewrite IH. cbn [map].
    rewrite join_empty_cons. reflexivity.
  - cbn [PyStr.title_from].
    destruct (PyStr.is_cased c); intros Hc;
      cbn [PyStr.replace]; rewrite Hc, IH; norm; reflexivity.
Qed.

End StringFacts.

(** C8. [clear_key] replaces every ["/"] of its input by ["."] and leaves
    every other character in place, so its result holds no ["/"];
    [clear_key("a/b/c")] is ["a.b.c"]. *)
Theorem clear_key_replaces_slashes :
  (forall (key : string) (i : nat),
      String.get i (clear_key key)
      = (fun c => if Ascii.eqb c "/" then "."%char else c) <$> String.get i key)
  /\ (forall key : string, PyStr.contains "/" (clear_key key) = false)
  /\ clear_key "a/b/c" = "a.b.c".
Proof.
  split; [|split].
  - intros key i. apply replace_get.
  - intros key. apply replace_removes. reflexivity.
  - reflexivity.
Qed.

(** C10. [clear_key] is idempotent. *)
Theorem clear_key_idempotent (k : string) :
  clear_key (clear_key k) = clear_key k.
Proof.
  unfold clear_key. apply replace_absent, replace_removes. reflexivity.
Qed.

(* ===================================================================== *)
(** ** Dictionaries and the store *)
(* ===================================================================== *)

Section DictFacts.

Implicit Types (k : string) (v : value) (d : dict).

Lemma dict_get_set_eq k v d : dict_get k (dict_set k v d) = Some v.
Proof.
  induction d as [|[k' v'] d IH]; simpl.
  - now rewrite String.eqb_refl.
  - destruct (String.eqb k' k) eqn:E; simpl; rewrite E; auto.
Qed.

Lemma dict_get_set_ne k k' v d :
  k <> k' -> dict_get k' (dict_set k v d) = dict_get k' d.
Proof.
  intros Hne. induction d as [|[k0 v0] d IH]; simpl.
  - apply String.eqb_neq in Hne. now rewrite Hne.
  - destruct (String.eqb k0 k) eqn:E; simpl.
    + apply String.eqb_eq in E. subst k0.
      apply String.eqb_neq in Hne. now rewrite Hne.
    + now rewrite IH.
Qed.

(** A write adds or rebinds its own key and nothing else. *)
Lemma dict_get_set k k' v d :
  dict_get k' (dict_set k v d)
  = if String.eqb k k' then Some v else dict_get k' d.
Proof.
  destruct (String.eqb k k') eqn:E.
  - apply String.eqb_eq in E. subst. apply dict_get_set_eq.
  - apply String.eqb_neq in E. now apply dict_get_set_ne.
Qed.

Lemma dict_of_entries_app es1 es2 d :
  dict_of_entries (es1 ++ es2) d = dict_of_entries es2 (dict_of_entries es1 d).
Proof. apply fold_left_app. Qed.

(** Entries with other keys do not touch the binding of [k]. *)
Lemma dict_of_entries_other k es d :
  k ∉ map fst es -> dict_get k (dict_of_entries es d) = dict_get k d.
Proof.
  revert d. induction es as [|[k' b] es IH]; intros d Hk; [reflexivity|].
  cbn [map fst] in Hk. apply not_elem_of_cons in Hk as [Hne Hk].
  cbn. rewrite IH by assumption. now apply dict_get_set_ne.
Qed.

(** The last entry written under a key is the one that stays. *)
Lemma dict_of_entries_last k b es1 es2 d :
  k ∉ map fst es2 ->
  dict_get k (dict_of_entries (es1 ++ (k, b) :: es2) d) = Some (VRef b).
Proof.
  intros Hk. rewrite dict_of_entries_app. cbn.
  rewrite dict_of_entries_other by assumption. apply dict_get_set_eq.
Qed.

(** Whatever is bound after the entries was bound before or is one of
    the entries. *)
Lemma dict_of_entries_get k v es d :
  dict_get k (dict_of_entries es d) = Some v ->
  dict_get k d = Some v \/ exists b, v = VRef b /\ (k, b) ∈ es.
Proof.
  revert d. induction es as [|[k' b] es IH]; intros d H; [now left|].
  cbn in H. apply IH in H as [H | (b' & -> & Hin)].
  - rewrite dict_get_set in H. destruct (String.eqb k' k) eqn:E.
    + apply String.eqb_eq in E. subst k'. injection H as <-.
      right. exists b. split; [reflexivity | left].
    + now left.
  - right. exists b'. split; [reflexivity | now right].
Qed.

(** A binding, once made, is never removed by later entries. *)
Lemma dict_of_entries_keeps k v es d :
  dict_get k d = Some v ->
  exists v', dict_get k (dict_of_entries es d) = Some v'.
Proof.
  revert d v. induction es as [|[k' b] es IH]; intros d v H; [now exists v|].
  change (dict_of_entries ((k', b) :: es) d)
    with (dict_of_entries es (dict_set k' (VRef b) d)).
  destruct (String.eqb k' k) eqn:E.
  - apply (IH _ (VRef b)). rewrite dict_get_set. now rewrite E.
  - apply (IH _ v). rewrite dict_get_set. now rewrite E.
Qed.

(** Every entry leaves its key bound. *)
Lemma dict_of_entries_bound k b es d :
  (k, b) ∈ es ->
  exists v, dict_get k (dict_of_entries es d) = Some v.
Proof.
  revert d. induction es as [|[k' b'] es IH]; intros d Hin; [inversion Hin|].
  change (dict_of_entries ((k', b') :: es) d)
    with (dict_of_entries es (dict_set k' (VRef b') d)).
  apply elem_of_cons in Hin as [Heq | Hin]; [|now apply IH].
  injection Heq as -> ->.
  apply (dict_of_entries_keeps _ (VRef b')). apply dict_get_set_eq.
Qed.

End DictFacts.

Section LoopFacts.

Variable extra : string.
Variable served_words : Z.

Implicit Types (h : heap) (b : loc) (n : string) (d acc : dict)
  (ps : list (loc * string)) (es : list (string * loc)).

Lemma has_title_inv h b :
  has_title h b = true ->
  exists d t, h !! b = Some d /\ dict_get "title" d = Some (VStr t).
Proof.
  unfold has_title, title_of. destruct (h !! b) as [d|]; [|discriminate].
  destruct (dict_get "title" d) as [[| | |t|]|] eqn:Ht; try discriminate.
  intros _. exists d, t. split; [reflexivity | exact Ht].
Qed.

Lemma title_of_has_title h b t :
  title_of h b = Some (VStr t) -> has_title h b = true.
Proof. unfold has_title. now intros ->. Qed.

(** One run of lines 22-35 on an object with a [str] title. *)
Lemma resolve_title_run h b n d t :
  h !! b = Some d -> dict_get "title" d = Some (VStr t) ->
  resolve_title extra served_words b n h
  = if 1 <? length (PyStr.split ":" t)
    then
      let t' := composite_title extra served_words n (PyStr.split ":" t) in
      (inr t', <[b := dict_set "title" (VStr t') d]> h)
    else (inr t, h).
Proof.
  intros Hb Ht. unfold resolve_title, bind, getitem. rewrite Hb, Ht.
  unfold str_receiver, ret. cbv beta iota.
  destruct (1 <? length (PyStr.split ":" t)); [|reflexivity].
  unfold setitem. now rewrite Hb.
Qed.

(** What one run does to the store: the title of [b] becomes the title
    returned, no other object changes, no object is added. *)
Lemma resolve_title_step h b n :
  has_title h b = true ->
  exists t h',
    resolve_title extra served_words b n h = (inr t, h')
    /\ length h' = length h
    /\ title_of h' b = Some (VStr t)
    /\ (forall b', b' <> b -> h' !! b' = h !! b')
    /\ (forall b', has_title h b' = true -> has_title h' b' = true).
Proof.
  intros Hb. destruct (has_title_inv _ _ Hb) as (d & t & Hd & Ht).
  rewrite (resolve_title_run h b n d t Hd Ht).
  destruct (1 <? length (PyStr.split ":" t)).
  - eexists _, _. split; [reflexivity|].
    pose proof (lookup_lt_Some _ _ _ Hd) as Hlt.
    split; [apply length_insert|]. split; [|split].
    + unfold title_of. rewrite list_lookup_insert_eq by assumption.
      apply dict_get_set_eq.
    + intros b' Hne. now apply list_lookup_insert_ne.
    + intros b' Hb'. destruct (decide (b' = b)) as [->|Hne].
      * unfold has_title, title_of.
        rewrite list_lookup_insert_eq by assumption.
        now rewrite dict_get_set_eq.
      * unfold has_title, title_of in *.
        now rewrite list_lookup_insert_ne by congruence.
  - exists t, h. repeat split; auto.
    unfold title_of. now rewrite Hd.
Qed.

(** Objects allocated after [b] play no part in a run on [b]. *)
Lemma resolve_title_frame h b n (later : heap) :
  b < length h ->
  resolve_title extra served_words b n (h ++ later)
  = let '(r, h') := resolve_title extra served_words b n h in
    (r, h' ++ later).
Proof.
  intros Hlt. destruct (lookup_lt_is_Some_2 _ _ Hlt) as [d Hd].
  unfold resolve_title, bind, getitem.
  rewrite (lookup_app_l _ _ _ Hlt), Hd.
  destruct (dict_get "title" d) as [v|]; [|reflexivity].
  destruct v as [| | |t|]; unfold str_receiver, raise, ret; cbv beta iota;
    try reflexivity.
  destruct (1 <? length (PyStr.split ":" t)); [|reflexivity].
  unfold setitem. rewrite (lookup_app_l _ _ _ Hlt), Hd.
  now rewrite insert_app_l.
Qed.

Lemma has_title_lt h b : has_title h b = true -> b < length h.
Proof.
  intros Hb. destruct (has_title_inv _ _ Hb) as (d & _ & Hd & _).
  exact (lookup_lt_Some _ _ _ Hd).
Qed.

Lemma setitem_last h acc k v :
  setitem (length h) k v (h ++ [acc]) = (inr tt, h ++ [dict_set k v acc]).
Proof.
  unfold setitem. rewrite list_lookup_middle by reflexivity.
  rewrite insert_app_r_alt by lia. now rewrite Nat.sub_diag.
Qed.

(** The loop over well-formed schema pairs never raises; it leaves in the
    store the titles of [resolve_titles] and, in the mapping object
    allocated just after the caller's objects, their entries. *)
Lemma loop_run ps : forall h,
  titled h ps = true ->
  exists es h',
    resolve_titles extra served_words ps h = (inr es, h')
    /\ length h' = length h
    /\ map snd es = map fst ps
    /\ (forall b, b ∉ map fst ps -> h' !! b = h !! b)
    /\ (forall b, has_title h b = true -> has_title h' b = true)
    /\ (forall acc,
           payload_loop extra served_words (length h) ps (h ++ [acc])
           = (inr tt, h' ++ [dict_of_entries es acc])).
Proof.
  induction ps as [|[b n] ps IH]; intros h Hps.
  - exists [], h. repeat split; auto.
  - cbn in Hps. apply andb_true_iff in Hps as [Hb Hps].
    destruct (resolve_title_step h b n Hb)
      as (t & h1 & Hrun & Hlen & Ht & Hother & Hkeep).
    assert (Hps1 : titled h1 ps = true).
    { unfold titled in *. rewrite forallb_forall in *.
      intros p Hp. apply Hkeep. now apply Hps. }
    destruct (IH h1 Hps1) as (es & h' & Hes & Hlen' & Hmap & Hoth' & Hkeep' & Hloop).
    exists ((t, b) :: es), h'. split; [|split; [|split; [|split; [|split]]]].
    + cbn. unfold bind. now rewrite Hrun, Hes.
    + congruence.
    + cbn. now rewrite Hmap.
    + intros b' Hb'. cbn in Hb'. apply not_elem_of_cons in Hb' as [Hne Hb'].
      rewrite Hoth' by assumption. now apply Hother.
    + auto.
    + intros acc. cbn [payload_loop]. unfold bind at 1.
      rewrite resolve_title_frame by now apply has_title_lt.
      rewrite Hrun. unfold bind at 1.
      rewrite <- Hlen, setitem_last, Hloop. reflexivity.
Qed.

Lemma payload_loop_app one_of ps1 ps2 h :
  payload_loop extra served_words one_of (ps1 ++ ps2) h
  = match payload_loop extra served_words one_of ps1 h with
    | (inr _, h') => payload_loop extra served_words one_of ps2 h'
    | (inl e, h') => (inl e, h')
    end.
Proof.
  revert h. induction ps1 as [|[b n] ps1 IH]; intros h; [reflexivity|].
  cbn [app payload_loop]. unfold bind.
  destruct (resolve_title extra served_words b n h) as [[e|t] h1];
    [reflexivity|].
  destruct (setitem one_of t (VRef b) h1) as [[e|[]] h2]; [reflexivity|].
  apply IH.
Qed.

(** Two or more well-formed schema pairs: the result is a new object
    whose only entry binds ["oneOf"] to the new mapping object. *)
Lemma resolve_payloads_many ps h :
  2 <= length ps -> titled h ps = true ->
  exists es h',
    resolve_titles extra served_words ps h = (inr es, h')
    /\ length h' = length h
    /\ resolve_payloads ps extra served_words h
       = (inr (S (length h)),
          h' ++ [dict_of_entries es []; [("oneOf", VRef (length h))]]).
Proof.
  intros Hlen Hps.
  destruct (loop_run ps h Hps) as (es & h' & Hes & Hlen' & _ & _ & _ & Hloop).
  exists es, h'. split; [assumption|]. split; [assumption|].
  unfold resolve_payloads.
  destruct (1 <? length ps) eqn:E; [|apply Nat.ltb_ge in E; lia].
  unfold bind, new_dict. rewrite Hloop.
  rewrite length_app, Hlen'. cbn [length].
  rewrite Nat.add_1_r, <- app_assoc. reflexivity.
Qed.

End LoopFacts.

(* ===================================================================== *)
(** ** [resolve_payloads]: result shapes *)
(* ===================================================================== *)

(** C3. For a single pair, whatever its title, the extra marker and
    [served_words], [resolve_payloads] returns the very schema object it
    was given and leaves the store as it was: no title is rewritten and
    the caller's object is not written to. *)
Theorem resolve_payloads_single
    (extra : string) (served_words : Z) (schema : loc) (handler_name : string)
    (h : heap) :
  resolve_payloads [(schema, handler_name)] extra served_words h
  = (inr schema, h).
Proof. reflexivity. Qed.

(** C2. The result has one of three shapes, chosen by the number of pairs:
    a new empty object for none; the schema object of the pair for one;
    for two or more schema pairs, a new object whose only key is ["oneOf"],
    bound to a new mapping object. The mapping is what line 37 builds from
    the titles the pairs resolved to: every such title is a key, and every
    key is such a title, bound to the schema object of a pair that
    resolved to it. *)
Theorem resolve_payloads_shapes
    (extra : string) (served_words : Z) (payloads : list (loc * string))
    (h : heap) :
  match payloads with
  | [] =>
      resolve_payloads payloads extra served_words h
      = (inr (length h), h ++ [[]])
  | [(schema, _)] =>
      resolve_payloads payloads extra served_words h = (inr schema, h)
  | _ =>
      titled h payloads = true ->
      exists (r m : loc) (h' : heap) (mapping : dict) (es : list (string * loc)),
        resolve_payloads payloads extra served_words h = (inr r, h')
        /\ length h <= m /\ length h <= r
        /\ h' !! r = Some [("oneOf", VRef m)]
        /\ h' !! m = Some mapping
        /\ fst (resolve_titles extra served_words payloads h) = inr es
        /\ map snd es = map fst payloads
        /\ (forall k v, dict_get k mapping = Some v ->
              exists b, v = VRef b /\ (k, b) ∈ es)
        /\ (forall k b, (k, b) ∈ es ->
              exists b', dict_get k mapping = Some (VRef b') /\ (k, b') ∈ es)
        /\ mapping = dict_of_entries es []
  end.
Proof.
  destruct payloads as [|[b1 n1] [|p2 rest]]; [reflexivity | reflexivity |].
  set (ps := (b1, n1) :: p2 :: rest) in *. intros Hps.
  destruct (resolve_payloads_many extra served_words ps h)
    as (es & h' & Hes & Hlen & Hrun); [cbn; lia | assumption |].
  destruct (loop_run extra served_words ps h Hps)
    as (es' & h2 & Hes' & _ & Hmap & _).
  rewrite Hes in Hes'. injection Hes' as <- <-.
  exists (S (length h)), (length h),
    (h' ++ [dict_of_entries es []; [("oneOf", VRef (length h))]]),
    (dict_of_entries es []), es.
  split; [exact Hrun|]. split; [lia|]. split; [lia|].
  split; [|split; [|split; [|split; [|split; [|split]]]]].
  - rewrite lookup_app_r by lia. rewrite Hlen.
    now replace (S (length h) - length h) with 1 by lia.
  - rewrite lookup_app_r by lia. rewrite Hlen, Nat.sub_diag. reflexivity.
  - now rewrite Hes.
  - exact Hmap.
  - intros k v Hk. apply dict_of_entries_get in Hk as [Hk | Hk];
      [discriminate | exact Hk].
  - intros k b Hin.
    destruct (dict_of_entries_bound k b es [] Hin) as [v Hv].
    destruct (dict_of_entries_get _ _ _ _ Hv) as [Hk | (b' & -> & Hin')];
      [discriminate|].
    now exists b'.
  - reflexivity.
Qed.

Lemma resolve_payloads_shapes_witness :
  exists (r m : loc) (h' : heap) (mapping : dict) (es : list (string * loc)),
    resolve_payloads [(0, "h"); (1, "g"); (0, "k")] "E" 1
      [[("title", VStr "A:B:C")]; [("title", VStr "Model")]] = (inr r, h')
    /\ 2 <= m /\ 2 <= r
    /\ h' !! r = Some [("oneOf", VRef m)]
    /\ h' !! m = Some mapping
    /\ fst (resolve_titles "E" 1 [(0, "h"); (1, "g"); (0, "k")]
              [[("title", VStr "A:B:C")]; [("title", VStr "Model")]]) = inr es
    /\ map snd es = [0; 1; 0]
    /\ (forall k v, dict_get k mapping = Some v ->
          exists b, v = VRef b /\ (k, b) ∈ es)
    /\ (forall k b, (k, b) ∈ es ->
          exists b', dict_get k mapping = Some (VRef b') /\ (k, b') ∈ es)
    /\ mapping = dict_of_entries es [].
Proof.
  apply (resolve_payloads_shapes "E" 1 [(0, "h"); (1, "g"); (0, "k")]
           [[("title", VStr "A:B:C")]; [("title", VStr "Model")]]).
  reflexivity.
Defined.

(** C4. With two or more pairs [resolve_payloads] raises nothing, and when
    several pairs resolve to the same title the mapping under ["oneOf"]
    binds that title to the schema of the last of them in input order. *)
Theorem resolve_payloads_last_write_wins
    (extra : string) (served_words : Z) (payloads : list (loc * string))
    (h : heap) :
  2 <= length payloads -> titled h payloads = true ->
  exists (r m : loc) (h' : heap) (mapping : dict) (es : list (string * loc)),
    resolve_payloads payloads extra served_words h = (inr r, h')
    /\ h' !! r = Some [("oneOf", VRef m)]
    /\ h' !! m = Some mapping
    /\ fst (resolve_titles extra served_words payloads h) = inr es
    /\ map snd es = map fst payloads
    /\ (forall es1 k b es2,
          es = es1 ++ (k, b) :: es2 -> k ∉ map fst es2 ->
          dict_get k mapping = Some (VRef b)).
Proof.
  intros Hlen Hps.
  destruct (resolve_payloads_many extra served_words payloads h Hlen Hps)
    as (es & h' & Hes & Hlen' & Hrun).
  destruct (loop_run extra served_words payloads h Hps)
    as (es' & h2 & Hes' & _ & Hmap & _).
  rewrite Hes in Hes'. injection Hes' as <- <-.
  exists (S (length h)), (length h),
    (h' ++ [dict_of_entries es []; [("oneOf", VRef (length h))]]),
    (dict_of_entries es []), es.
  split; [exact Hrun|]. split; [|split; [|split; [|split]]].
  - rewrite lookup_app_r by lia. rewrite Hlen'.
    now replace (S (length h) - length h) with 1 by lia.
  - rewrite lookup_app_r by lia. rewrite Hlen', Nat.sub_diag. reflexivity.
  - now rewrite Hes.
  - exact Hmap.
  - intros es1 k b es2 -> Hk. now apply dict_of_entries_last.
Qed.

Lemma resolve_payloads_last_write_wins_witness :
  exists (r m : loc) (h' : heap) (mapping : dict) (es : list (string * loc)),
    resolve_payloads [(0, "h"); (1, "g"); (2, "h")] "E" 1
      [[("title", VStr "A:B")]; [("title", VStr "Model")];
       [("title", VStr "C:B")]] = (inr r, h')
    /\ h' !! r = Some [("oneOf", VRef m)]
    /\ h' !! m = Some mapping
    /\ fst (resolve_titles "E" 1 [(0, "h"); (1, "g"); (2, "h")]
              [[("title", VStr "A:B")]; [("title", VStr "Model")];
               [("title", VStr "C:B")]]) = inr es
    /\ map snd es = [0; 1; 2]
    /\ (forall es1 k b es2,
          es = es1 ++ (k, b) :: es2 -> k ∉ map fst es2 ->
          dict_get k mapping = Some (VRef b)).
Proof.
  apply (resolve_payloads_last_write_wins "E" 1 [(0, "h"); (1, "g"); (2, "h")]
           [[("title", VStr "A:B")]; [("title", VStr "Model")];
            [("title", VStr "C:B")]]).
  - cbn. lia.
  - reflexivity.
Defined.

Example collision_run :
  resolve_payloads [(0, "h"); (1, "g"); (2, "h")] "E" 1
    [[("title", VStr "A:B")]; [("title", VStr "Model")]; [("title", VStr "C:B")]]
  = (inr 4,
     [[("title", VStr "h:E:B")]; [("title", VStr "Model")];
      [("title", VStr "h:E:B")];
      [("h:E:B", VRef 2); ("Model", VRef 1)];
      [("oneOf", VRef 3)]]).
Proof. reflexivity. Qed.

(** C5. Two pairs whose titles are distinct and hold no [":"]: the result
    is a new object [{"oneOf": {title1: schema1, title2: schema2}}] with
    the two entries in input order, and the store is otherwise as before,
    so both titles and everything else in the schema objects are
    untouched. *)
Theorem resolve_payloads_two_plain_titles
    (extra : string) (served_words : Z) (h : heap)
    (schema1 schema2 : loc) (name1 name2 title1 title2 : string) :
  title_of h schema1 = Some (VStr title1) ->
  title_of h schema2 = Some (VStr title2) ->
  PyStr.contains ":" title1 = false ->
  PyStr.contains ":" title2 = false ->
  title1 <> title2 ->
  resolve_payloads [(schema1, name1); (schema2, name2)] extra served_words h
  = (inr (S (length h)),
     h ++ [[(title1, VRef schema1); (title2, VRef schema2)];
           [("oneOf", VRef (length h))]]).
Proof.
  intros H1 H2 Hc1 Hc2 Hne.
  assert (Hps : titled h [(schema1, name1); (schema2, name2)] = true).
  { cbn. now rewrite (title_of_has_title _ _ _ H1), (title_of_has_title _ _ _ H2). }
  destruct (resolve_payloads_many extra served_words
              [(schema1, name1); (schema2, name2)] h (le_n 2) Hps)
    as (es & h' & Hes & _ & Hrun).
  rewrite Hrun. clear Hrun.
  assert (Hplain : forall b n t, title_of h b = Some (VStr t) ->
            PyStr.contains ":" t = false ->
            resolve_title extra served_words b n h = (inr t, h)).
  { intros b n t Ht Hc. unfold title_of in Ht.
    destruct (h !! b) as [d|] eqn:Hd; [|discriminate].
    rewrite (resolve_title_run extra served_words h b n d t Hd Ht).
    now rewrite (split_no_sep _ _ Hc). }
  cbn in Hes. unfold bind in Hes.
  rewrite (Hplain _ name1 _ H1 Hc1), (Hplain _ name2 _ H2 Hc2) in Hes.
  injection Hes as <- <-. cbn.
  apply String.eqb_neq in Hne. now rewrite Hne.
Qed.

Lemma resolve_payloads_two_plain_titles_witness :
  resolve_payloads [(0, "h"); (1, "g")] "E" 1
    [[("title", VStr "Order"); ("type", VStr "object")];
     [("title", VStr "Invoice")]]
  = (inr 3,
     [[("title", VStr "Order"); ("type", VStr "object")];
      [("title", VStr "Invoice")];
      [("Order", VRef 0); ("Invoice", VRef 1)];
      [("oneOf", VRef 2)]]).
Proof.
  apply (resolve_payloads_two_plain_titles "E" 1
           [[("title", VStr "Order"); ("type", VStr "object")];
            [("title", VStr "Invoice")]] 0 1 "h" "g" "Order" "Invoice");
    try reflexivity.
  discriminate.
Defined.

(* ===================================================================== *)
(** ** [resolve_payloads]: keys and titles *)
(* ===================================================================== *)

Section KeysAndTitles.

Variable extra : string.
Variable served_words : Z.

(** When no schema object is listed twice, each title stays what its
    pair resolved it to until the loop ends. *)
Lemma resolve_titles_keys (ps : list (loc * string)) :
  forall (h h' : heap) (es : list (string * loc)),
    titled h ps = true -> NoDup (map fst ps) ->
    resolve_titles extra served_words ps h = (inr es, h') ->
    forall k b, (k, b) ∈ es -> title_of h' b = Some (VStr k).
Proof.
  induction ps as [|[b n] ps IH]; intros h h' es Hps Hnd Hes k b' Hin.
  - injection Hes as <- <-. inversion Hin.
  - cbn in Hps. apply andb_true_iff in Hps as [Hb Hps].
    cbn [map fst] in Hnd. apply NoDup_cons in Hnd as [Hnotin Hnd].
    destruct (resolve_title_step extra served_words h b n Hb)
      as (t & h1 & Hrun & _ & Ht & _ & Hkeep).
    assert (Hps1 : titled h1 ps = true).
    { unfold titled in *. rewrite forallb_forall in *.
      intros p Hp. apply Hkeep. now apply Hps. }
    destruct (loop_run extra served_words ps h1 Hps1)
      as (es' & h2 & Hes' & _ & _ & Hother & _).
    cbn in Hes. unfold bind in Hes. rewrite Hrun, Hes' in Hes.
    injection Hes as <- <-.
    apply elem_of_cons in Hin as [Heq | Hin].
    + injection Heq as -> ->. unfold title_of in *.
      now rewrite Hother.
    + exact (IH h1 h2 es' Hps1 Hnd Hes' k b' Hin).
Qed.

End KeysAndTitles.

(** C9, as amended. When every schema carries a string title and no schema
    object is listed twice, every key of the mapping under ["oneOf"] is
    the title of the schema object bound to it. *)
Theorem oneOf_keys_are_titles
    (extra : string) (served_words : Z) (payloads : list (loc * string))
    (h : heap) :
  2 <= length payloads -> titled h payloads = true ->
  NoDup (map fst payloads) ->
  exists (r m : loc) (h' : heap) (mapping : dict),
    resolve_payloads payloads extra served_words h = (inr r, h')
    /\ h' !! r = Some [("oneOf", VRef m)]
    /\ h' !! m = Some mapping
    /\ keys_are_titles h' mapping.
Proof.
  intros Hlen Hps Hnd.
  destruct (resolve_payloads_many extra served_words payloads h Hlen Hps)
    as (es & h' & Hes & Hlen' & Hrun).
  destruct (loop_run extra served_words payloads h Hps)
    as (es' & h2 & Hes' & _ & Hmap & _).
  rewrite Hes in Hes'. injection Hes' as <- <-.
  exists (S (length h)), (length h),
    (h' ++ [dict_of_entries es []; [("oneOf", VRef (length h))]]),
    (dict_of_entries es []).
  split; [exact Hrun|]. split; [|split].
  - rewrite lookup_app_r by lia. rewrite Hlen'.
    now replace (S (length h) - length h) with 1 by lia.
  - rewrite lookup_app_r by lia. rewrite Hlen', Nat.sub_diag. reflexivity.
  - intros k v Hk.
    apply dict_of_entries_get in Hk as [Hk | (b & -> & Hin)]; [discriminate|].
    exists b. split; [reflexivity|].
    pose proof (resolve_titles_keys extra served_words payloads h h' es
                  Hps Hnd Hes k b Hin) as Ht.
    unfold title_of in *.
    destruct (h' !! b) as [d|] eqn:Hd; [|discriminate].
    now rewrite (lookup_app_l_Some _ _ _ _ Hd).
Qed.

Lemma oneOf_keys_are_titles_witness :
  exists (r m : loc) (h' : heap) (mapping : dict),
    resolve_payloads [(0, "h"); (1, "g")] "E" 1
      [[("title", VStr "A:B:C")]; [("title", VStr "Model")]] = (inr r, h')
    /\ h' !! r = Some [("oneOf", VRef m)]
    /\ h' !! m = Some mapping
    /\ keys_are_titles h' mapping.
Proof.
  apply (oneOf_keys_are_titles "E" 1 [(0, "h"); (1, "g")]
           [[("title", VStr "A:B:C")]; [("title", VStr "Model")]]).
  - cbn. lia.
  - reflexivity.
  - apply (bool_decide_unpack _). vm_compute. exact I.
Defined.

(** C9 as stated fails when one schema object is listed in two pairs: the
    second visit rewrites its title again, and the key written at the
    first visit is left bound to an object that no longer has that
    title. *)
Lemma oneOf_key_differs_from_title_of_shared_schema :
  let h : heap := [[("title", VStr "A:B")]] in
  let payloads := [(0, "h1"); (0, "h2")] in
  (2 <= length payloads /\ titled h payloads = true)
  /\ exists (r m : loc) (h' : heap) (mapping : dict),
       resolve_payloads payloads EmptyString 1 h = (inr r, h')
       /\ h' !! r = Some [("oneOf", VRef m)]
       /\ h' !! m = Some mapping
       /\ dict_get "h1:B" mapping = Some (VRef 0)
       /\ title_of h' 0 = Some (VStr "h2:B")
       /\ ~ keys_are_titles h' mapping.
Proof.
  cbv zeta. split; [split; [cbn; lia | reflexivity]|].
  exists 2, 1,
    [[("title", VStr "h2:B")];
     [("h1:B", VRef 0); ("h2:B", VRef 0)];
     [("oneOf", VRef 1)]],
    [("h1:B", VRef 0); ("h2:B", VRef 0)].
  repeat (split; [reflexivity|]).
  intros H. destruct (H "h1:B" (VRef 0) eq_refl) as (b & Hb & Ht).
  injection Hb as <-. discriminate Ht.
Qed.

(* ===================================================================== *)
(** ** [resolve_payloads]: the rewritten title *)
(* ===================================================================== *)

Section CompositeTitle.

(** A slice from a non-negative index drops that many leading items. *)
Lemma slice_from_nat {A} (k : nat) (l : list A) :
  slice_from (Z.of_nat k) l = drop k l.
Proof.
  unfold slice_from.
  destruct (Z.ltb_spec (Z.of_nat k) 0) as [Hneg|_]; [lia|].
  destruct (Nat.le_gt_cases k (length l)) as [Hle|Hgt].
  - now rewrite Z.min_l, Nat2Z.id by lia.
  - rewrite Z.min_r, Nat2Z.id by lia.
    now rewrite !drop_ge by lia.
Qed.

(** A slice from a negative index counts from the end instead. *)
Lemma slice_from_negative :
  slice_from (-1) ["A"; "B"; "C"] = ["C"].
Proof. reflexivity. Qed.

Lemma str_in_elem (x : string) (l : list string) :
  str_in x l = bool_decide (x ∈ l).
Proof.
  induction l as [|y l IH]; [reflexivity|].
  cbn [str_in existsb]. fold (str_in x l). rewrite IH.
  destruct (String.eqb_spec x y) as [->|Hne]; cbn [orb].
  - symmetry. apply bool_decide_eq_true. left.
  - destruct (bool_decide (x ∈ l)) eqn:E.
    + symmetry. apply bool_decide_eq_true. right.
      now apply bool_decide_eq_true in E.
    + symmetry. apply bool_decide_eq_false. intros Hin.
      apply elem_of_cons in Hin as [Heq|Hin]; [contradiction|].
      now apply bool_decide_eq_false in E.
Qed.

Lemma truthy_nonempty (w : string) :
  PyStr.truthy w = negb (String.eqb w EmptyString).
Proof. now destruct w. Qed.

(** The title the code builds is the one the specification describes,
    for every non-negative [served_words]. *)
Lemma composite_title_spec (extra : string) (k : nat) (n t : string) :
  composite_title extra (Z.of_nat k) n (PyStr.split ":" t)
  = title_as_specified extra k n t.
Proof.
  unfold composite_title, title_as_specified.
  rewrite slice_from_nat, str_in_elem. f_equal.
  rewrite <- (List.filter_ext _ _ truthy_nonempty).
  destruct (bool_decide (extra ∈ PyStr.split ":" t)); cbn [negb app];
    cbn [List.filter PyStr.truthy]; reflexivity.
Qed.

End CompositeTitle.

(** C1. With two or more pairs, when the loop reaches a pair whose schema
    has a title of more than one [":"]-segment, that title is rewritten as
    the [":"]-join of the non-empty members of: the handler name, the
    extra marker unless it equals one of the segments, the segments after
    the first [served_words]. A schema object listed once has its input
    title at that point and keeps the rewritten one in the result. For
    title ["A:B:C"], handler ["h"], [served_words = 1], the title becomes
    ["h:E:B:C"] for the marker ["E"] and ["h:B:C"] for the marker ["B"]. *)
Theorem resolve_payloads_rewrites_composite_title :
  (forall (extra : string) (served_words : nat) (h : heap)
          (pre post : list (loc * string)) (body : loc) (handler_name : string),
      let payloads := pre ++ (body, handler_name) :: post in
      let sw := Z.of_nat served_words in
      let one_of := length h in
      2 <= length payloads -> titled h payloads = true ->
      exists (s1 s2 s3 : heap) (title : string),
        payload_loop extra sw one_of pre (h ++ [[]]) = (inr tt, s1)
        /\ title_of s1 body = Some (VStr title)
        /\ payload_loop extra sw one_of [(body, handler_name)] s1 = (inr tt, s2)
        /\ payload_loop extra sw one_of post s2 = (inr tt, s3)
        /\ resolve_payloads payloads extra sw h
           = (inr (S one_of), s3 ++ [[("oneOf", VRef one_of)]])
        /\ (1 < length (PyStr.split ":" title) ->
            title_of s2 body
            = Some (VStr (title_as_specified extra served_words
                            handler_name title)))
        /\ (NoDup (map fst payloads) ->
            title_of h body = Some (VStr title)
            /\ title_of (s3 ++ [[("oneOf", VRef one_of)]]) body
               = title_of s2 body))
  /\ resolve_payloads [(0, "h"); (1, "g")] "E" 1
       [[("title", VStr "A:B:C")]; [("title", VStr "Model")]]
     = (inr 3,
        [[("title", VStr "h:E:B:C")]; [("title", VStr "Model")];
         [("h:E:B:C", VRef 0); ("Model", VRef 1)];
         [("oneOf", VRef 2)]])
  /\ resolve_payloads [(0, "h"); (1, "g")] "B" 1
       [[("title", VStr "A:B:C")]; [("title", VStr "Model")]]
     = (inr 3,
        [[("title", VStr "h:B:C")]; [("title", VStr "Model")];
         [("h:B:C", VRef 0); ("Model", VRef 1)];
         [("oneOf", VRef 2)]]).
Proof.
  split; [|split; reflexivity].
  intros extra k h pre post b n payloads sw one_of Hlen Hps.
  assert (Hsplit : titled h pre = true /\ has_title h b = true
                   /\ titled h post = true).
  { unfold titled, payloads in Hps. rewrite forallb_app in Hps.
    apply andb_true_iff in Hps as [Hpre Hrest]. cbn in Hrest.
    apply andb_true_iff in Hrest as [Hb Hpost]. now repeat split. }
  destruct Hsplit as (Hpre & Hb & Hpost).
  (* the pairs before *)
  destruct (loop_run extra sw pre h Hpre)
    as (es1 & h1 & _ & Hlen1 & _ & Hoth1 & Hkeep1 & Hloop1).
  pose proof (Hkeep1 b Hb) as Hb1.
  destruct (has_title_inv _ _ Hb1) as (d & title & Hd & Ht).
  pose proof (lookup_lt_Some _ _ _ Hd) as Hlt1.
  (* this pair *)
  assert (Hone : titled h1 [(b, n)] = true) by (cbn; now rewrite Hb1).
  destruct (loop_run extra sw [(b, n)] h1 Hone)
    as (es2 & h2 & Hes2 & Hlen2 & _ & _ & Hkeep2 & Hloop2).
  (* the pairs after *)
  assert (Hpost2 : titled h2 post = true).
  { unfold titled in *. rewrite forallb_forall in *.
    intros p Hp. apply Hkeep2, Hkeep1. now apply Hpost. }
  destruct (loop_run extra sw post h2 Hpost2)
    as (es3 & h3 & _ & Hlen3 & _ & Hoth3 & _ & Hloop3).
  rewrite Hlen1 in Hloop2. rewrite Hlen2, Hlen1 in Hloop3.
  fold one_of in Hloop1, Hloop2, Hloop3.
  set (m1 := dict_of_entries es1 []).
  set (m2 := dict_of_entries es2 m1).
  set (m3 := dict_of_entries es3 m2).
  exists (h1 ++ [m1]), (h2 ++ [m2]), (h3 ++ [m3]), title.
  split; [apply Hloop1|]. split; [|split; [apply Hloop2|split; [apply Hloop3|]]].
  { unfold title_of. now rewrite lookup_app_l, Hd by assumption. }
  split; [|split].
  - unfold resolve_payloads. fold payloads.
    destruct (1 <? length payloads) eqn:E; [|apply Nat.ltb_ge in E; lia].
    unfold bind at 1. unfold new_dict at 1. unfold bind at 1.
    unfold payloads. fold one_of.
    change ((b, n) :: post) with ([(b, n)] ++ post).
    rewrite payload_loop_app, Hloop1. cbv beta iota.
    rewrite payload_loop_app, Hloop2. cbv beta iota. rewrite Hloop3.
    unfold new_dict. rewrite length_app, Hlen3, Hlen2, Hlen1. cbn [length].
    now rewrite Nat.add_1_r.
  - intros Hmany. cbn in Hes2. unfold bind in Hes2.
    rewrite (resolve_title_run extra sw h1 b n d title Hd Ht) in Hes2.
    apply Nat.ltb_lt in Hmany. rewrite Hmany in Hes2. cbv zeta in Hes2.
    injection Hes2 as _ <-. unfold title_of.
    rewrite lookup_app_l by (rewrite length_insert; assumption).
    rewrite list_lookup_insert_eq by assumption.
    unfold sw. rewrite composite_title_spec. apply dict_get_set_eq.
  - intros Hnd. unfold payloads in Hnd. rewrite map_app in Hnd.
    cbn [map fst] in Hnd. apply NoDup_app in Hnd as (_ & Hpre_b & Hnd).
    apply NoDup_cons in Hnd as [Hpost_b _].
    assert (Hnot_pre : b ∉ map fst pre).
    { intros Hin. apply (Hpre_b b Hin). left. }
    split.
    + unfold title_of. now rewrite <- Hoth1, Hd by assumption.
    + unfold title_of.
      assert (Hlt2 : b < length h2) by lia.
      assert (Hlt3 : b < length h3) by lia.
      rewrite <- app_assoc, !lookup_app_l by assumption.
      now rewrite Hoth3.
Qed.

Lemma resolve_payloads_rewrites_composite_title_witness :
  exists (s1 s2 s3 : heap) (title : string),
    payload_loop "E" 1 2 [(1, "g")]
      ([[("title", VStr "A:B:C")]; [("title", VStr "Model")]] ++ [[]])
    = (inr tt, s1)
    /\ title_of s1 0 = Some (VStr title)
    /\ payload_loop "E" 1 2 [(0, "h")] s1 = (inr tt, s2)
    /\ payload_loop "E" 1 2 [(1, "k")] s2 = (inr tt, s3)
    /\ resolve_payloads ([(1, "g")] ++ (0, "h") :: [(1, "k")]) "E" 1
         [[("title", VStr "A:B:C")]; [("title", VStr "Model")]]
       = (inr 3, s3 ++ [[("oneOf", VRef 2)]])
    /\ (1 < length (PyStr.split ":" title) ->
        title_of s2 0 = Some (VStr (title_as_specified "E" 1 "h" title)))
    /\ (NoDup (map fst ([(1, "g")] ++ (0, "h") :: [(1, "k")])) ->
        title_of [[("title", VStr "A:B:C")]; [("title", VStr "Model")]] 0
        = Some (VStr title)
        /\ title_of (s3 ++ [[("oneOf", VRef 2)]]) 0 = title_of s2 0).
Proof.
  destruct resolve_payloads_rewrites_composite_title as [H _].
  apply (H "E" 1 [[("title", VStr "A:B:C")]; [("title", VStr "Model")]]
           [(1, "g")] [(1, "k")] 0 "h").
  - cbn. lia.
  - reflexivity.
Defined.

(* ===================================================================== *)
(** ** Publishers before binding *)
(* ===================================================================== *)

(** C6. On a publisher whose producer reference is absent, [publish] and
    [request] fail with the not-ready error and the record of producer
    calls is what it was: no transport operation is attempted. *)
Theorem publish_before_setup_not_ready
    (self : Publisher.PublisherProto) (message : string)
    (cid : option string) (calls : list Publisher.transport_call) :
  Publisher._producer self = None ->
  Publisher.publish self message cid calls = (inl Publisher.NotReady, calls)
  /\ Publisher.request self message cid calls = (inl Publisher.NotReady, calls).
Proof.
  intros Hnone.
  unfold Publisher.publish, Publisher._publish, Publisher.request.
  rewrite Hnone. split; reflexivity.
Qed.

Lemma publish_before_setup_not_ready_witness :
  Publisher.publish (Publisher.declared [] [fun inner cmd => inner cmd])
    "ping" None []
  = (inl Publisher.NotReady, [])
  /\ Publisher.request (Publisher.declared [] [fun inner cmd => inner cmd])
       "ping" None []
     = (inl Publisher.NotReady, []).
Proof.
  apply (publish_before_setup_not_ready
           (Publisher.declared [] [fun inner cmd => inner cmd]) "ping" None []).
  reflexivity.
Defined.

(** Once a producer is bound the same calls reach it. *)
Example publish_after_setup :
  let p := {| Publisher.on_publish := fun _ => inr None;
              Publisher.on_request := fun _ => inr (Some "pong");
              Publisher.on_publish_batch := fun _ => inr None |} in
  let pub := Publisher._setup (Publisher.declared [] []) (Some p) in
  snd (Publisher.publish pub "ping" None [])
  = [(Publisher.m_publish,
      {| Publisher.body := "ping"; Publisher.destination := EmptyString;
         Publisher.correlation_id := None |})]
  /\ fst (Publisher.request pub "ping" None []) = inr (Some "pong").
Proof. split; reflexivity. Qed.

(* ===================================================================== *)
(** * Further properties of [utils.py] *)
(* ===================================================================== *)

(** ** [to_camelcase] and [clear_key] over concatenation *)

Section StringAlgebra.

Implicit Types (c d : ascii) (s a w x y : string) (l : list string).

Lemma str_app_assoc s a w : (s +:+ a) +:+ w = s +:+ (a +:+ w).
Proof.
  induction s as [|c s IH]; [reflexivity|].
  now rewrite !append_cons, IH.
Qed.

Lemma str_app_length s w :
  String.length (s +:+ w) = String.length s + String.length w.
Proof.
  induction s as [|c s IH]; [reflexivity|].
  rewrite append_cons. cbn [String.length]. now rewrite IH.
Qed.

Lemma replace_app old new s w :
  PyStr.replace old new (s +:+ w)
  = PyStr.replace old new s +:+ PyStr.replace old new w.
Proof.
  induction s as [|c s IH]; [reflexivity|].
  rewrite append_cons. cbn [PyStr.replace].
  destruct (Ascii.eqb c old);
    [now rewrite IH, str_app_assoc | now rewrite IH, append_cons].
Qed.

Lemma join_app sep l1 l2 :
  l1 <> [] -> l2 <> [] ->
  PyStr.join sep (l1 ++ l2)
  = PyStr.join sep l1 +:+ sep +:+ PyStr.join sep l2.
Proof.
  intros H1 H2. induction l1 as [|w l1 IH]; [contradiction|].
  destruct l1 as [|w' l1].
  - cbn [app]. destruct l2 as [|v l2]; [contradiction | reflexivity].
  - change (PyStr.join sep ((w :: w' :: l1) ++ l2))
      with (w +:+ sep +:+ PyStr.join sep ((w' :: l1) ++ l2)).
    rewrite IH by discriminate.
    change (PyStr.join sep (w :: w' :: l1))
      with (w +:+ sep +:+ PyStr.join sep (w' :: l1)).
    now rewrite !str_app_assoc.
Qed.

(** A space starts a new word whatever precedes it. *)
Lemma title_from_space (b : bool) s w :
  PyStr.title_from b (s +:+ String " " w)
  = PyStr.title_from b s +:+ String " " (PyStr.title_from false w).
Proof.
  revert b. induction s as [|c s IH]; intros b; [reflexivity|].
  rewrite append_cons. cbn [PyStr.title_from].
  destruct (PyStr.is_cased c); now rewrite IH, append_cons.
Qed.

Lemma to_camelcase_concat l1 l2 :
  to_camelcase (l1 ++ l2) = to_camelcase l1 +:+ to_camelcase l2.
Proof.
  destruct l1 as [|w1 l1]; [reflexivity|].
  destruct l2 as [|w2 l2].
  { rewrite app_nil_r. change (to_camelcase []) with EmptyString.
    now rewrite append_empty_r. }
  unfold to_camelcase, PyStr.title.
  rewrite join_app by discriminate.
  rewrite !replace_app.
  change (PyStr.replace "_" " " " ") with (String " " EmptyString).
  rewrite append_cons. change (EmptyString +:+ ?x) with x.
  rewrite title_from_space, replace_app.
  cbn [PyStr.replace Ascii.eqb Bool.eqb].
  reflexivity.
Qed.

End StringAlgebra.

(** X1. Camel-casing a sequence of names is the concatenation of the
    camel-cased parts: the result for the names [a] followed by the names
    [b] is the result for [a] followed by the result for [b]. *)
Theorem to_camelcase_app (names1 names2 : list string) :
  to_camelcase (names1 ++ names2)
  = to_camelcase names1 +:+ to_camelcase names2.
Proof. apply to_camelcase_concat. Qed.

(** X2. An underscore inside a name separates words exactly as passing
    two names does: wherever it stands in the argument list, the name
    [x_y] gives the same result as the two names [x], [y]. *)
Theorem to_camelcase_underscore_splits_name
    (before after : list string) (x y : string) :
  to_camelcase (before ++ [x +:+ "_" +:+ y] ++ after)
  = to_camelcase (before ++ [x; y] ++ after).
Proof.
  rewrite !to_camelcase_concat. do 2 f_equal.
  unfold to_camelcase. cbn [PyStr.join].
  rewrite !replace_app. reflexivity.
Qed.

(** X3. [clear_key] works character by character: it keeps the length of
    the key and distributes over concatenation. *)
Theorem clear_key_app_length (k1 k2 : string) :
  clear_key (k1 +:+ k2) = clear_key k1 +:+ clear_key k2
  /\ String.length (clear_key k1) = String.length k1.
Proof.
  split; [apply replace_app|].
  unfold clear_key. induction k1 as [|c k IH]; [reflexivity|].
  cbn [PyStr.replace]. destruct (Ascii.eqb c "/");
    rewrite ?append_cons; cbn [String.length]; now rewrite <- IH.
Qed.

(** X4. The keys [clear_key] returns unchanged are exactly the keys
    without ["/"]. *)
Theorem clear_key_fixed_points (k : string) :
  clear_key k = k <-> PyStr.contains "/" k = false.
Proof.
  split.
  - intros <-. apply replace_removes. reflexivity.
  - apply replace_absent.
Qed.

(* ===================================================================== *)
(** ** [resolve_payloads]: what a run may write *)
(* ===================================================================== *)

Section StoreEffect.

Variable extra : string.
Variable served_words : Z.

Implicit Types (s h : heap) (b one_of : loc) (d : dict)
  (ps : list (loc * string)).

Lemma dict_set_keys k v v0 d :
  dict_get k d = Some v0 -> map fst (dict_set k v d) = map fst d.
Proof.
  induction d as [|[k' v'] d IH]; cbn; [discriminate|].
  destruct (String.eqb k' k); cbn; [reflexivity|].
  intros H. now rewrite IH.
Qed.

Lemma same_but_title_refl d : same_but_title d d.
Proof. split; auto. Qed.

Lemma same_but_title_trans d1 d2 d3 :
  same_but_title d1 d2 -> same_but_title d2 d3 -> same_but_title d1 d3.
Proof.
  intros [Hk1 Hv1] [Hk2 Hv2]. split; [congruence|].
  intros k Hk. now rewrite Hv2, Hv1.
Qed.

(** A visit either leaves the store alone or rebinds the title of a
    schema whose title had several segments. *)
Lemma resolve_title_effect b n s r s' :
  resolve_title extra served_words b n s = (r, s') ->
  s' = s
  \/ exists d t T,
       s !! b = Some d /\ dict_get "title" d = Some (VStr t)
       /\ 1 < length (PyStr.split ":" t)
       /\ s' = <[b := dict_set "title" (VStr T) d]> s.
Proof.
  unfold resolve_title, bind, getitem.
  destruct (s !! b) as [d|] eqn:Hd; [|intros [= _ <-]; now left].
  destruct (dict_get "title" d) as [v|] eqn:Ht; [|intros [= _ <-]; now left].
  destruct v as [| | |t|]; unfold str_receiver, raise, ret; cbv beta iota;
    try (intros [= _ <-]; now left).
  destruct (1 <? length (PyStr.split ":" t)) eqn:E;
    [|intros [= _ <-]; now left].
  unfold setitem. rewrite Hd. intros [= _ <-]. right.
  apply Nat.ltb_lt in E. eauto 10.
Qed.

Lemma setitem_effect l k v s r s' :
  setitem l k v s = (r, s') ->
  s' = s \/ exists d, s !! l = Some d /\ s' = <[l := dict_set k v d]> s.
Proof.
  unfold setitem. destruct (s !! l) as [d|] eqn:Hd; intros [= _ <-];
    [right; eauto | now left].
Qed.

Lemma store_effect_refl one_of touched s : store_effect one_of touched s s.
Proof.
  split; [reflexivity|]. intros b d _ Hd. exists d.
  split; [assumption|]. split; [apply same_but_title_refl | auto].
Qed.

Lemma store_effect_trans one_of t1 t2 touched s1 s2 s3 :
  (forall b, b ∈ t1 -> b ∈ touched) -> (forall b, b ∈ t2 -> b ∈ touched) ->
  store_effect one_of t1 s1 s2 -> store_effect one_of t2 s2 s3 ->
  store_effect one_of touched s1 s3.
Proof.
  intros Ht1 Ht2 [Hl1 H1] [Hl2 H2]. split; [congruence|].
  intros b d Hb Hd.
  destruct (H1 b d Hb Hd) as (d2 & Hd2 & Hs1 & Hn1 & Hp1).
  destruct (H2 b d2 Hb Hd2) as (d3 & Hd3 & Hs2 & Hn2 & Hp2).
  exists d3. split; [assumption|].
  split; [eapply same_but_title_trans; eassumption|]. split.
  - intros Hnot. rewrite Hn2, Hn1; auto.
  - intros Hp. pose proof (Hp1 Hp) as ->. auto.
Qed.

Lemma store_effect_visit one_of b n s r s' :
  resolve_title extra served_words b n s = (r, s') ->
  store_effect one_of [b] s s'.
Proof.
  intros H. apply resolve_title_effect in H
    as [-> | (d0 & t & T & Hd0 & Ht & Hlen & ->)];
    [apply store_effect_refl|].
  split; [apply length_insert|]. intros b' d _ Hd.
  destruct (decide (b' = b)) as [->|Hne].
  - rewrite Hd0 in Hd. injection Hd as <-.
    exists (dict_set "title" (VStr T) d0).
    split; [apply list_lookup_insert_eq; now apply lookup_lt_Some in Hd0|].
    split; [split|split].
    + eapply dict_set_keys; eassumption.
    + intros k Hk. apply dict_get_set_ne. congruence.
    + intros Hnot. exfalso. apply Hnot. left.
    + intros (t' & Ht' & Hplain). rewrite Ht in Ht'. injection Ht' as <-.
      rewrite (split_no_sep _ _ Hplain) in Hlen. cbn in Hlen. lia.
  - exists d. split; [now rewrite list_lookup_insert_ne by congruence|].
    split; [apply same_but_title_refl | auto].
Qed.

Lemma store_effect_fill one_of k v s r s' :
  setitem one_of k v s = (r, s') -> store_effect one_of [] s s'.
Proof.
  intros H. apply setitem_effect in H as [-> | (d0 & Hd0 & ->)];
    [apply store_effect_refl|].
  split; [apply length_insert|]. intros b d Hb Hd. exists d.
  split; [now rewrite list_lookup_insert_ne by congruence|].
  split; [apply same_but_title_refl | auto].
Qed.

(** The loop, however it ends, writes only titles of the schemas it is
    given, and only titles of several segments. *)
Lemma payload_loop_effect one_of ps : forall s r s',
  payload_loop extra served_words one_of ps s = (r, s') ->
  store_effect one_of (map fst ps) s s'.
Proof.
  induction ps as [|[b n] ps IH]; intros s r s' H.
  - injection H as _ <-. apply store_effect_refl.
  - cbn [payload_loop] in H. unfold bind in H.
    destruct (resolve_title extra served_words b n s) as [[e|t] s1] eqn:Hv.
    + injection H as _ <-.
      apply (store_effect_trans one_of [b] [] _ s s1 s1);
        [intros x Hx; apply list_elem_of_singleton in Hx as ->; left
        | intros x Hx; inversion Hx
        | eapply store_effect_visit; eassumption
        | apply store_effect_refl].
    + destruct (setitem one_of t (VRef b) s1) as [[e|[]] s2] eqn:Hf.
      * injection H as _ <-.
        apply (store_effect_trans one_of [b] [] _ s s1 s2);
          [intros x Hx; apply list_elem_of_singleton in Hx as ->; left
          | intros x Hx; inversion Hx
          | eapply store_effect_visit; eassumption
          | eapply store_effect_fill; eassumption].
      * apply (store_effect_trans one_of [b] (map fst ps) _ s s2 s').
        -- intros x Hx. apply list_elem_of_singleton in Hx as ->. left.
        -- intros x Hx. now right.
        -- apply (store_effect_trans one_of [b] [] _ s s1 s2);
             [auto | intros x Hx; inversion Hx
             | eapply store_effect_visit; eassumption
             | eapply store_effect_fill; eassumption].
        -- eapply IH; eassumption.
Qed.

(** The same for a whole call: the caller's objects are all still there,
    each with its keys and its values other than the title. *)
Lemma resolve_payloads_effect ps h r h' :
  resolve_payloads ps extra served_words h = (r, h') ->
  forall b d,
    h !! b = Some d ->
    exists d',
      h' !! b = Some d'
      /\ same_but_title d d'
      /\ (b ∉ map fst ps -> d' = d)
      /\ (plain_title d -> d' = d).
Proof.
  intros Hrun b d Hd.
  assert (Hsame : h' = h \/ h' = h ++ [[]] \/
            exists s' later, h' = s' ++ later
              /\ store_effect (length h) (map fst ps) (h ++ [[]]) s').
  { unfold resolve_payloads in Hrun.
    destruct (1 <? length ps).
    - right. right. unfold bind, new_dict in Hrun.
      destruct (payload_loop extra served_words (length h) ps (h ++ [[]]))
        as [[e|[]] s'] eqn:Hloop; injection Hrun as _ <-.
      + exists s', []. rewrite app_nil_r.
        split; [reflexivity | eapply payload_loop_effect; eassumption].
      + eexists s', _. split; [reflexivity|].
        eapply payload_loop_effect; eassumption.
    - destruct (length ps =? 1).
      + left. destruct ps; injection Hrun as _ <-; reflexivity.
      + right. left. now injection Hrun as _ <-. }
  destruct Hsame as [-> | [-> | (s' & later & -> & [_ Heff])]].
  - exists d. split; [assumption|].
    split; [apply same_but_title_refl | auto].
  - exists d. split; [now apply lookup_app_l_Some|].
    split; [apply same_but_title_refl | auto].
  - pose proof (lookup_lt_Some _ _ _ Hd) as Hlt.
    destruct (Heff b d) as (d' & Hd' & Hrest); [lia | now apply lookup_app_l_Some |].
    exists d'. split; [now apply lookup_app_l_Some | exact Hrest].
Qed.

End StoreEffect.

(** X5. Whether it returns or raises, [resolve_payloads] keeps every
    object of the caller's store and leaves an object that no pair lists
    exactly as it was. *)
Theorem resolve_payloads_frame
    (payloads : list (loc * string)) (extra : string) (served_words : Z)
    (h : heap) (b : loc) (d : dict) :
  h !! b = Some d -> b ∉ map fst payloads ->
  snd (resolve_payloads payloads extra served_words h) !! b = Some d.
Proof.
  intros Hd Hb.
  destruct (resolve_payloads payloads extra served_words h) as [r h'] eqn:Hrun.
  destruct (resolve_payloads_effect extra served_words payloads h r h' Hrun b d Hd)
    as (d' & Hd' & _ & Hsame & _).
  cbn. now rewrite Hd', (Hsame Hb).
Qed.

Lemma resolve_payloads_frame_witness :
  snd (resolve_payloads [(0, "h"); (2, "g")] "E" 1
         [[("title", VStr "A:B")]; [("title", VStr "X:Y")];
          [("title", VStr "C:D")]]) !! 1
  = Some [("title", VStr "X:Y")].
Proof.
  apply (resolve_payloads_frame [(0, "h"); (2, "g")] "E" 1
           [[("title", VStr "A:B")]; [("title", VStr "X:Y")];
            [("title", VStr "C:D")]] 1 [("title", VStr "X:Y")]).
  - reflexivity.
  - apply (bool_decide_unpack _). vm_compute. exact I.
Defined.

(** X6. Whether it returns or raises, the only thing [resolve_payloads]
    changes in a schema object is the value under ["title"]: the object
    keeps its keys, in order, and its value under every other key. *)
Theorem resolve_payloads_writes_titles_only
    (payloads : list (loc * string)) (extra : string) (served_words : Z)
    (h : heap) (b : loc) (d : dict) :
  h !! b = Some d ->
  exists d' : dict,
    snd (resolve_payloads payloads extra served_words h) !! b = Some d'
    /\ map fst d' = map fst d
    /\ (forall k : string, k <> "title" -> dict_get k d' = dict_get k d).
Proof.
  intros Hd.
  destruct (resolve_payloads payloads extra served_words h) as [r h'] eqn:Hrun.
  destruct (resolve_payloads_effect extra served_words payloads h r h' Hrun b d Hd)
    as (d' & Hd' & [Hk Hv] & _).
  exists d'. cbn. auto.
Qed.

Lemma resolve_payloads_writes_titles_only_witness :
  exists d' : dict,
    snd (resolve_payloads [(0, "h"); (1, "g")] "E" 1
           [[("type", VStr "object"); ("title", VStr "A:B"); ("n", VInt 3)];
            [("title", VInt 7)]]) !! 0 = Some d'
    /\ map fst d' = ["type"; "title"; "n"]
    /\ (forall k : string, k <> "title" ->
        dict_get k d'
        = dict_get k [("type", VStr "object"); ("title", VStr "A:B");
                      ("n", VInt 3)]).
Proof.
  apply (resolve_payloads_writes_titles_only [(0, "h"); (1, "g")] "E" 1
           [[("type", VStr "object"); ("title", VStr "A:B"); ("n", VInt 3)];
            [("title", VInt 7)]] 0
           [("type", VStr "object"); ("title", VStr "A:B"); ("n", VInt 3)]).
  reflexivity.
Defined.

(** X7. A schema whose title holds no [":"] is never written to, however
    many pairs list it and whatever happens to the other pairs. *)
Theorem resolve_payloads_plain_title_untouched
    (payloads : list (loc * string)) (extra : string) (served_words : Z)
    (h : heap) (b : loc) (d : dict) (t : string) :
  h !! b = Some d -> dict_get "title" d = Some (VStr t) ->
  PyStr.contains ":" t = false ->
  snd (resolve_payloads payloads extra served_words h) !! b = Some d.
Proof.
  intros Hd Ht Hplain.
  destruct (resolve_payloads payloads extra served_words h) as [r h'] eqn:Hrun.
  destruct (resolve_payloads_effect extra served_words payloads h r h' Hrun b d Hd)
    as (d' & Hd' & _ & _ & Hsame).
  cbn. rewrite Hd', Hsame; [reflexivity|]. now exists t.
Qed.

Lemma resolve_payloads_plain_title_untouched_witness :
  snd (resolve_payloads [(0, "h"); (1, "g"); (0, "k")] "E" 1
         [[("title", VStr "Order")]; [("title", VStr "A:B")]]) !! 0
  = Some [("title", VStr "Order")].
Proof.
  apply (resolve_payloads_plain_title_untouched
           [(0, "h"); (1, "g"); (0, "k")] "E" 1
           [[("title", VStr "Order")]; [("title", VStr "A:B")]] 0
           [("title", VStr "Order")] "Order"); reflexivity.
Defined.

(* ===================================================================== *)
(** ** [resolve_payloads]: when it raises *)
(* ===================================================================== *)

Section Raising.

Variable extra : string.
Variable served_words : Z.

Implicit Types (h : heap) (b : loc) (d : dict) (ps pre post : list (loc * string)).

(** The first pair without a [str] title, if there is one. *)
Lemma titled_false_split h ps :
  titled h ps = false ->
  exists pre b n post,
    ps = pre ++ (b, n) :: post
    /\ titled h pre = true /\ has_title h b = false.
Proof.
  induction ps as [|[b n] ps IH]; [discriminate|].
  cbn. destruct (has_title h b) eqn:Hb; cbn.
  - intros H. destruct (IH H) as (pre & b' & n' & post & -> & Hpre & Hb').
    exists ((b, n) :: pre), b', n', post. cbn. rewrite Hb. auto.
  - intros _. exists [], b, n, ps. auto.
Qed.

(** A visit to an object without a [str] title raises and writes
    nothing. *)
Lemma resolve_title_raises h b n d :
  h !! b = Some d -> has_title h b = false ->
  resolve_title extra served_words b n h
  = (inl (match dict_get "title" d with
          | None => KeyError "title"
          | Some _ => AttributeError
          end), h).
Proof.
  intros Hd Hb. unfold has_title, title_of in Hb. rewrite Hd in Hb.
  unfold resolve_title, bind, getitem. rewrite Hd.
  destruct (dict_get "title" d) as [[| | |t|]|]; try reflexivity.
  discriminate.
Qed.

(** The call stops at the first pair without a [str] title: the titles
    of the pairs before it are rewritten, their entries are in the mapping
    object, and the ["oneOf"] object is never built. *)
Lemma resolve_payloads_raises pre b n post h d :
  2 <= length (pre ++ (b, n) :: post) ->
  titled h pre = true -> h !! b = Some d -> has_title h b = false ->
  exists es1 h1,
    resolve_titles extra served_words pre h = (inr es1, h1)
    /\ resolve_payloads (pre ++ (b, n) :: post) extra served_words h
       = (inl (match dict_get "title" d with
               | None => KeyError "title"
               | Some _ => AttributeError
               end),
          h1 ++ [dict_of_entries es1 []]).
Proof.
  intros Hlen Hpre Hd Hb.
  destruct (loop_run extra served_words pre h Hpre)
    as (es1 & h1 & Hes1 & Hlen1 & _ & Hother & Hkeep & Hloop).
  exists es1, h1. split; [assumption|].
  assert (Hnot : b ∉ map fst pre).
  { intros Hin. apply list_elem_of_fmap in Hin as ([b' n'] & -> & Hin).
    unfold titled in Hpre. rewrite forallb_forall in Hpre.
    apply list_elem_of_In in Hin. apply Hpre in Hin. cbn in Hin, Hb. congruence. }
  assert (Hd1 : h1 !! b = Some d) by (now rewrite Hother).
  assert (Hb1 : has_title h1 b = false).
  { unfold has_title, title_of in Hb |- *. rewrite Hd in Hb.
    now rewrite Hd1. }
  unfold resolve_payloads.
  destruct (1 <? length (pre ++ (b, n) :: post)) eqn:E;
    [|apply Nat.ltb_ge in E; lia].
  unfold bind at 1. unfold new_dict at 1. unfold bind at 1.
  rewrite payload_loop_app, Hloop. cbv beta iota.
  cbn [payload_loop]. unfold bind at 1.
  rewrite resolve_title_frame by (now apply lookup_lt_Some in Hd1).
  now rewrite (resolve_title_raises h1 b n d Hd1 Hb1).
Qed.

End Raising.

(** X8. With two or more pairs, the call raises at the first pair whose
    schema has no [str] title: [KeyError] when the key is missing,
    [AttributeError] when the title is not a [str]. The titles of the
    pairs before it stay rewritten, and the new mapping object holds their
    entries. *)
Theorem resolve_payloads_raises_at_first_bad_title
    (pre post : list (loc * string)) (b : loc) (handler_name : string)
    (extra : string) (served_words : Z) (h : heap) (d : dict) :
  2 <= length (pre ++ (b, handler_name) :: post) ->
  titled h pre = true -> h !! b = Some d -> has_title h b = false ->
  exists (es1 : list (string * loc)) (h1 : heap),
    resolve_titles extra served_words pre h = (inr es1, h1)
    /\ resolve_payloads (pre ++ (b, handler_name) :: post) extra served_words h
       = (inl (match dict_get "title" d with
               | None => KeyError "title"
               | Some _ => AttributeError
               end),
          h1 ++ [dict_of_entries es1 []]).
Proof. apply resolve_payloads_raises. Qed.

Lemma resolve_payloads_raises_at_first_bad_title_witness :
  exists (es1 : list (string * loc)) (h1 : heap),
    resolve_titles "E" 1 [(0, "h")]
      [[("title", VStr "A:B")]; [("title", VInt 7)]] = (inr es1, h1)
    /\ resolve_payloads ([(0, "h")] ++ (1, "g") :: [(0, "k")]) "E" 1
         [[("title", VStr "A:B")]; [("title", VInt 7)]]
       = (inl AttributeError, h1 ++ [dict_of_entries es1 []]).
Proof.
  apply (resolve_payloads_raises_at_first_bad_title [(0, "h")] [(0, "k")] 1 "g"
           "E" 1 [[("title", VStr "A:B")]; [("title", VInt 7)]]
           [("title", VInt 7)]).
  - cbn. lia.
  - reflexivity.
  - reflexivity.
  - reflexivity.
Defined.

(** X9. With two or more pairs that all refer to objects of the store,
    the call returns normally exactly when every schema has a [str]
    title. *)
Theorem resolve_payloads_returns_iff_titled
    (payloads : list (loc * string)) (extra : string) (served_words : Z)
    (h : heap) :
  2 <= length payloads ->
  Forall (fun p => fst p < length h) payloads ->
  (exists (r : loc) (h' : heap),
      resolve_payloads payloads extra served_words h = (inr r, h'))
  <-> titled h payloads = true.
Proof.
  intros Hlen Hlive. split.
  - intros (r & h' & Hrun).
    destruct (titled h payloads) eqn:Ht; [reflexivity|]. exfalso.
    destruct (titled_false_split h payloads Ht)
      as (pre & b & n & post & -> & Hpre & Hb).
    apply Forall_app in Hlive as [_ Hlive]. apply Forall_cons in Hlive as [Hlt _].
    cbn in Hlt. destruct (lookup_lt_is_Some_2 _ _ Hlt) as [d Hd].
    destruct (resolve_payloads_raises extra served_words pre b n post h d
                Hlen Hpre Hd Hb) as (es1 & h1 & _ & Hraise).
    rewrite Hraise in Hrun. discriminate.
  - intros Ht.
    destruct (resolve_payloads_many extra served_words payloads h Hlen Ht)
      as (es & h' & _ & _ & Hrun).
    eauto.
Qed.

Lemma resolve_payloads_returns_iff_titled_witness :
  (exists (r : loc) (h' : heap),
      resolve_payloads [(0, "h"); (1, "g")] "E" 1
        [[("title", VStr "A:B")]; [("title", VStr "M")]] = (inr r, h'))
  <-> titled [[("title", VStr "A:B")]; [("title", VStr "M")]]
        [(0, "h"); (1, "g")] = true.
Proof.
  apply (resolve_payloads_returns_iff_titled [(0, "h"); (1, "g")] "E" 1
           [[("title", VStr "A:B")]; [("title", VStr "M")]]).
  - cbn. lia.
  - repeat constructor; cbn; lia.
Defined.

(* ===================================================================== *)
(** ** [resolve_payloads]: the keys of the mapping *)
(* ===================================================================== *)

Section MappingKeys.

Implicit Types (k : string) (v : value) (d : dict) (es : list (string * loc)).

Lemma dict_set_fresh k v d :
  k ∉ map fst d -> dict_set k v d = d ++ [(k, v)].
Proof.
  induction d as [|[k' v'] d IH]; intros Hk; [reflexivity|].
  cbn [map fst] in Hk. apply not_elem_of_cons in Hk as [Hne Hk].
  cbn. destruct (String.eqb_spec k' k) as [->|_]; [contradiction|].
  now rewrite IH.
Qed.

Lemma dict_set_present k v d :
  k ∈ map fst d -> map fst (dict_set k v d) = map fst d.
Proof.
  induction d as [|[k' v'] d IH]; intros Hk; [inversion Hk|].
  cbn. destruct (String.eqb_spec k' k) as [->|Hne]; [reflexivity|].
  cbn. rewrite IH; [reflexivity|].
  cbn [map fst] in Hk. apply elem_of_cons in Hk as [->|Hk];
    [contradiction | assumption].
Qed.

(** A write keeps the keys distinct and adds at most its own key. *)
Lemma dict_set_keys_spec k v d :
  NoDup (map fst d) ->
  NoDup (map fst (dict_set k v d))
  /\ (forall k', k' ∈ map fst (dict_set k v d) <-> k' = k \/ k' ∈ map fst d)
  /\ length (dict_set k v d) <= S (length d).
Proof.
  intros Hnd. destruct (decide (k ∈ map fst d)) as [Hin|Hnot].
  - rewrite (dict_set_present k v d Hin). split; [assumption|]. split.
    + intros k'. split; [auto|]. intros [->|H]; assumption.
    + pose proof (f_equal length (dict_set_present k v d Hin)) as Hl.
      rewrite !length_map in Hl. lia.
  - rewrite (dict_set_fresh k v d Hnot), map_app. cbn [map fst].
    split; [|split].
    + apply NoDup_app. split; [assumption|]. split; [|apply NoDup_singleton].
      intros x Hx Hx'. apply list_elem_of_singleton in Hx' as ->. contradiction.
    + intros k'. rewrite elem_of_app, list_elem_of_singleton. tauto.
    + rewrite length_app. cbn. lia.
Qed.

Lemma dict_of_entries_keys es : forall d,
  NoDup (map fst d) ->
  NoDup (map fst (dict_of_entries es d))
  /\ (forall k, k ∈ map fst (dict_of_entries es d)
                <-> k ∈ map fst d \/ k ∈ map fst es)
  /\ length (dict_of_entries es d) <= length d + length es.
Proof.
  induction es as [|[k b] es IH]; intros d Hnd.
  - cbn. split; [assumption|]. split; [|lia].
    intros k. split; [auto|]. intros [H|H]; [assumption | inversion H].
  - destruct (dict_set_keys_spec k (VRef b) d Hnd) as (Hnd' & Hk' & Hl').
    destruct (IH (dict_set k (VRef b) d) Hnd') as (Hnd2 & Hk2 & Hl2).
    change (dict_of_entries ((k, b) :: es) d)
      with (dict_of_entries es (dict_set k (VRef b) d)).
    split; [assumption|]. split.
    + intros k0. rewrite Hk2, Hk'. cbn [map fst]. rewrite elem_of_cons. tauto.
    + cbn [length]. lia.
Qed.

(** Entries with distinct new keys are appended in order. *)
Lemma dict_of_entries_fresh es : forall d,
  NoDup (map fst es) -> (forall k, k ∈ map fst es -> k ∉ map fst d) ->
  dict_of_entries es d = d ++ map (fun e => (fst e, VRef (snd e))) es.
Proof.
  induction es as [|[k b] es IH]; intros d Hnd Hfresh.
  - cbn. now rewrite app_nil_r.
  - cbn [map fst] in Hnd. apply NoDup_cons in Hnd as [Hk Hnd].
    change (dict_of_entries ((k, b) :: es) d)
      with (dict_of_entries es (dict_set k (VRef b) d)).
    rewrite dict_set_fresh by (apply Hfresh; left).
    rewrite IH; [now rewrite <- app_assoc | assumption |].
    intros k' Hk'. rewrite map_app. cbn [map fst].
    rewrite elem_of_app, list_elem_of_singleton.
    intros [Hin | ->]; [|contradiction].
    apply (Hfresh k'); [now right | assumption].
Qed.

End MappingKeys.

(** X10. The mapping under ["oneOf"] has one entry per resolved title: its
    keys are pairwise distinct, they are exactly the titles the pairs
    resolved to, and there are at most as many as there are pairs. *)
Theorem oneOf_keys_are_the_resolved_titles
    (payloads : list (loc * string)) (extra : string) (served_words : Z)
    (h : heap) :
  2 <= length payloads -> titled h payloads = true ->
  exists (r m : loc) (h' : heap) (mapping : dict) (es : list (string * loc)),
    resolve_payloads payloads extra served_words h = (inr r, h')
    /\ h' !! r = Some [("oneOf", VRef m)]
    /\ h' !! m = Some mapping
    /\ fst (resolve_titles extra served_words payloads h) = inr es
    /\ NoDup (map fst mapping)
    /\ (forall k : string, k ∈ map fst mapping <-> k ∈ map fst es)
    /\ length mapping <= length payloads.
Proof.
  intros Hlen Hps.
  destruct (resolve_payloads_many extra served_words payloads h Hlen Hps)
    as (es & h' & Hes & Hlen' & Hrun).
  destruct (loop_run extra served_words payloads h Hps)
    as (es' & h2 & Hes' & _ & Hmap & _).
  rewrite Hes in Hes'. injection Hes' as <- <-.
  destruct (dict_of_entries_keys es [] (NoDup_nil_2)) as (Hnd & Hk & Hl).
  exists (S (length h)), (length h),
    (h' ++ [dict_of_entries es []; [("oneOf", VRef (length h))]]),
    (dict_of_entries es []), es.
  split; [exact Hrun|]. split; [|split; [|split; [|split; [|split]]]].
  - rewrite lookup_app_r by lia. rewrite Hlen'.
    now replace (S (length h) - length h) with 1 by lia.
  - rewrite lookup_app_r by lia. rewrite Hlen', Nat.sub_diag. reflexivity.
  - now rewrite Hes.
  - exact Hnd.
  - intros k. rewrite Hk. split; [|auto]. intros [H|H]; [inversion H | exact H].
  - apply (f_equal length) in Hmap. rewrite !length_map in Hmap.
    cbn [length] in Hl. lia.
Qed.

Lemma oneOf_keys_are_the_resolved_titles_witness :
  exists (r m : loc) (h' : heap) (mapping : dict) (es : list (string * loc)),
    resolve_payloads [(0, "h"); (1, "g"); (2, "h")] "E" 1
      [[("title", VStr "A:B")]; [("title", VStr "Model")];
       [("title", VStr "C:B")]] = (inr r, h')
    /\ h' !! r = Some [("oneOf", VRef m)]
    /\ h' !! m = Some mapping
    /\ fst (resolve_titles "E" 1 [(0, "h"); (1, "g"); (2, "h")]
              [[("title", VStr "A:B")]; [("title", VStr "Model")];
               [("title", VStr "C:B")]]) = inr es
    /\ NoDup (map fst mapping)
    /\ (forall k : string, k ∈ map fst mapping <-> k ∈ map fst es)
    /\ length mapping <= 3.
Proof.
  apply (oneOf_keys_are_the_resolved_titles [(0, "h"); (1, "g"); (2, "h")]
           "E" 1 [[("title", VStr "A:B")]; [("title", VStr "Model")];
                  [("title", VStr "C:B")]]).
  - cbn. lia.
  - reflexivity.
Defined.

(** X11. Any number of pairs (two or more) whose titles hold no [":"] and
    are pairwise distinct: nothing in the store is written, and the
    mapping under ["oneOf"] lists title and schema of every pair in input
    order. [entries] names the title of each pair's schema. *)
Theorem resolve_payloads_plain_titles
    (payloads : list (loc * string)) (entries : list (string * loc))
    (extra : string) (served_words : Z) (h : heap) :
  2 <= length payloads ->
  map snd entries = map fst payloads ->
  Forall (fun e => title_of h (snd e) = Some (VStr (fst e))
                   /\ PyStr.contains ":" (fst e) = false) entries ->
  NoDup (map fst entries) ->
  resolve_payloads payloads extra served_words h
  = (inr (S (length h)),
     h ++ [map (fun e => (fst e, VRef (snd e))) entries;
           [("oneOf", VRef (length h))]]).
Proof.
  intros Hlen Hmap Hplain Hnd.
  assert (Hes : resolve_titles extra served_words payloads h = (inr entries, h)).
  { clear Hlen Hnd. revert entries Hmap Hplain.
    induction payloads as [|[b n] ps IH]; intros [|[t b'] es] Hmap Hplain;
      try discriminate; [reflexivity|].
    cbn in Hmap. injection Hmap as -> Hmap.
    apply Forall_cons in Hplain as [[Ht Hc] Hplain]. cbn in Ht, Hc.
    cbn [resolve_titles]. unfold bind.
    unfold title_of in Ht. destruct (h !! b) as [d|] eqn:Hd; [|discriminate].
    rewrite (resolve_title_run extra served_words h b n d t Hd Ht).
    rewrite (split_no_sep _ _ Hc). cbn [length Nat.ltb Nat.leb].
    now rewrite (IH es Hmap Hplain). }
  assert (Hps : titled h payloads = true).
  { unfold titled. apply forallb_forall. intros [b n] Hin.
    apply (in_map fst) in Hin. rewrite <- Hmap in Hin.
    apply in_map_iff in Hin as ([t b'] & Heq & Hin). cbn in Heq. subst b'.
    rewrite Forall_forall in Hplain. apply list_elem_of_In in Hin.
    destruct (Hplain _ Hin) as [Ht _]. cbn in Ht |- *.
    now apply title_of_has_title in Ht. }
  destruct (resolve_payloads_many extra served_words payloads h Hlen Hps)
    as (es & h' & Hes' & _ & Hrun).
  rewrite Hes in Hes'. injection Hes' as <- <-.
  rewrite Hrun. rewrite dict_of_entries_fresh; [reflexivity | assumption |].
  intros k _ Hin. inversion Hin.
Qed.

Lemma resolve_payloads_plain_titles_witness :
  resolve_payloads [(2, "h"); (0, "g"); (1, "k")] "E" 1
    [[("title", VStr "Order")]; [("title", VStr "Invoice")];
     [("title", VStr "Item")]]
  = (inr 4,
     [[("title", VStr "Order")]; [("title", VStr "Invoice")];
      [("title", VStr "Item")]]
     ++ [map (fun e => (fst e, VRef (snd e)))
           [("Item", 2); ("Order", 0); ("Invoice", 1)];
         [("oneOf", VRef 3)]]).
Proof.
  apply (resolve_payloads_plain_titles [(2, "h"); (0, "g"); (1, "k")]
           [("Item", 2); ("Order", 0); ("Invoice", 1)] "E" 1
           [[("title", VStr "Order")]; [("title", VStr "Invoice")];
            [("title", VStr "Item")]]).
  - cbn. lia.
  - reflexivity.
  - repeat constructor.
  - apply (bool_decide_unpack _). vm_compute. exact I.
Defined.

(* ===================================================================== *)
(** ** [resolve_payloads]: distinct schema objects *)
(* ===================================================================== *)

Section DistinctSchemas.

Variable extra : string.
Variable served_words : Z.

Implicit Types (h s : heap) (b : loc) (n : string)
  (ps : list (loc * string)) (es : list (string * loc)).

(** What a visit returns depends on the visited object only. *)
Lemma resolve_title_local h s b n :
  s !! b = h !! b ->
  fst (resolve_title extra served_words b n s)
  = fst (resolve_title extra served_words b n h).
Proof.
  intros Heq. unfold resolve_title, bind, getitem. rewrite Heq.
  destruct (h !! b) as [d|] eqn:Hd; [|reflexivity].
  destruct (dict_get "title" d) as [[| | |t|]|]; try reflexivity.
  unfold str_receiver, ret. cbv beta iota.
  destruct (1 <? length (PyStr.split ":" t)); [|reflexivity].
  unfold setitem. now rewrite Heq, Hd.
Qed.

(** With every schema object listed once, the visits do not interfere:
    each pair resolves to what one visit on the input store returns, and
    its schema still has that title when the loop ends. *)
Lemma resolve_titles_each ps : forall h es h1,
  titled h ps = true -> NoDup (map fst ps) ->
  resolve_titles extra served_words ps h = (inr es, h1) ->
  forall h0, (forall b, b ∈ map fst ps -> h0 !! b = h !! b) ->
  Forall2 (fun p e =>
             snd e = fst p
             /\ fst (resolve_title extra served_words (fst p) (snd p) h0)
                = inr (fst e)
             /\ title_of h1 (fst p) = Some (VStr (fst e))) ps es.
Proof.
  induction ps as [|[b n] ps IH]; intros h es h1 Hps Hnd Hes h0 Hagree.
  - injection Hes as <- <-. constructor.
  - cbn in Hps. apply andb_true_iff in Hps as [Hb Hps].
    cbn [map fst] in Hnd. apply NoDup_cons in Hnd as [Hnotin Hnd].
    destruct (resolve_title_step extra served_words h b n Hb)
      as (t & h' & Hrun & _ & Ht & Hoth & Hkeep).
    assert (Hps' : titled h' ps = true).
    { unfold titled in *. rewrite forallb_forall in *.
      intros p Hp. apply Hkeep. now apply Hps. }
    destruct (loop_run extra served_words ps h' Hps')
      as (es' & h2 & Hes' & _ & _ & Hother & _).
    cbn in Hes. unfold bind in Hes. rewrite Hrun, Hes' in Hes.
    injection Hes as <- <-.
    constructor.
    + cbn [fst snd]. split; [reflexivity|]. split.
      * rewrite (resolve_title_local h h0 b n) by (apply Hagree; left).
        now rewrite Hrun.
      * unfold title_of in *. now rewrite Hother.
    + apply (IH h' es' h2 Hps' Hnd Hes' h0).
      intros b' Hb'. rewrite Hagree by now right.
      symmetry. apply Hoth. intros ->. contradiction.
Qed.

End DistinctSchemas.

(** X12. When no schema object is listed twice, the pairs do not affect
    one another: the title and mapping key of each pair are what a visit
    of that pair alone returns on the caller's store, the schema still
    carries that title in the result, and the mapping is these entries
    written in input order. *)
Theorem resolve_payloads_pairs_independent
    (payloads : list (loc * string)) (extra : string) (served_words : Z)
    (h : heap) :
  2 <= length payloads -> titled h payloads = true ->
  NoDup (map fst payloads) ->
  exists (h1 : heap) (es : list (string * loc)),
    resolve_payloads payloads extra served_words h
    = (inr (S (length h)),
       h1 ++ [dict_of_entries es []; [("oneOf", VRef (length h))]])
    /\ length h1 = length h
    /\ Forall2 (fun p e =>
                  snd e = fst p
                  /\ fst (resolve_title extra served_words (fst p) (snd p) h)
                     = inr (fst e)
                  /\ title_of h1 (fst p) = Some (VStr (fst e)))
         payloads es.
Proof.
  intros Hlen Hps Hnd.
  destruct (resolve_payloads_many extra served_words payloads h Hlen Hps)
    as (es & h1 & Hes & Hlen1 & Hrun).
  exists h1, es. split; [exact Hrun|]. split; [exact Hlen1|].
  apply (resolve_titles_each extra served_words payloads h es h1 Hps Hnd Hes h).
  reflexivity.
Qed.

Lemma resolve_payloads_pairs_independent_witness :
  exists (h1 : heap) (es : list (string * loc)),
    resolve_payloads [(1, "g"); (0, "h")] "E" 1
      [[("title", VStr "A:B")]; [("title", VStr "C:E")]]
    = (inr 3, h1 ++ [dict_of_entries es []; [("oneOf", VRef 2)]])
    /\ length h1 = 2
    /\ Forall2 (fun p e =>
                  snd e = fst p
                  /\ fst (resolve_title "E" 1 (fst p) (snd p)
                            [[("title", VStr "A:B")]; [("title", VStr "C:E")]])
                     = inr (fst e)
                  /\ title_of h1 (fst p) = Some (VStr (fst e)))
         [(1, "g"); (0, "h")] es.
Proof.
  apply (resolve_payloads_pairs_independent [(1, "g"); (0, "h")] "E" 1
           [[("title", VStr "A:B")]; [("title", VStr "C:E")]]).
  - cbn. lia.
  - reflexivity.
  - apply (bool_decide_unpack _). vm_compute. exact I.
Defined.

(* ===================================================================== *)
(** ** [resolve_payloads]: calling it again *)
(* ===================================================================== *)

Section SplitJoin.

Implicit Types (c : ascii) (s w : string) (l : list string).

Lemma split_app_sep c w s :
  PyStr.contains c w = false ->
  PyStr.split c (w +:+ String c s) = w :: PyStr.split c s.
Proof.
  induction w as [|a w IH]; cbn [PyStr.contains].
  - intros _. change (EmptyString +:+ String c s) with (String c s).
    cbn [PyStr.split]. now rewrite Ascii.eqb_refl.
  - intros H. apply orb_false_iff in H as [Ha Hw].
    rewrite append_cons. cbn [PyStr.split]. now rewrite Ha, (IH Hw).
Qed.

(** Splitting a join gives the parts back when no part holds the
    separator. *)
Lemma split_join c l :
  l <> [] -> Forall (fun w => PyStr.contains c w = false) l ->
  PyStr.split c (PyStr.join (String c EmptyString) l) = l.
Proof.
  intros Hne Hall. induction Hall as [|w l Hw Hall IH]; [contradiction|].
  destruct l as [|w' l]; [now apply split_no_sep|].
  change (PyStr.join (String c EmptyString) (w :: w' :: l))
    with (w +:+ String c EmptyString
            +:+ PyStr.join (String c EmptyString) (w' :: l)).
  rewrite append_cons. change (EmptyString +:+ ?x) with x.
  rewrite split_app_sep by assumption. now rewrite IH.
Qed.

(** Joining a split gives the string back. *)
Lemma join_split c s :
  PyStr.join (String c EmptyString) (PyStr.split c s) = s.
Proof.
  induction s as [|a s IH]; [reflexivity|]. cbn [PyStr.split].
  destruct (Ascii.eqb_spec a c) as [->|Hne].
  - destruct (PyStr.split c s) as [|w ws] eqn:E;
      [now destruct (split_not_nil _ _ E)|].
    change (PyStr.join (String c EmptyString) (EmptyString :: w :: ws))
      with (EmptyString +:+ String c EmptyString
              +:+ PyStr.join (String c EmptyString) (w :: ws)).
    now rewrite IH.
  - destruct (PyStr.split c s) as [|w ws] eqn:E;
      [now destruct (split_not_nil _ _ E)|].
    destruct ws as [|w' ws].
    + cbn [PyStr.join] in *. now rewrite IH.
    + change (PyStr.join (String c EmptyString) (String a w :: w' :: ws))
        with (String a w +:+ String c EmptyString
                +:+ PyStr.join (String c EmptyString) (w' :: ws)).
      rewrite append_cons, <- IH. reflexivity.
Qed.

Lemma split_segments_no_sep c s :
  Forall (fun w => PyStr.contains c w = false) (PyStr.split c s).
Proof.
  induction s as [|a s IH]; [repeat constructor|]. cbn [PyStr.split].
  destruct (Ascii.eqb a c) eqn:E; [now constructor|].
  destruct (PyStr.split c s) as [|w ws]; [repeat constructor; cbn; now rewrite E|].
  apply Forall_cons in IH as [Hw Hws].
  constructor; [cbn; now rewrite E, Hw | assumption].
Qed.

Lemma filter_truthy_all l :
  Forall (fun w => PyStr.truthy w = true) (List.filter PyStr.truthy l).
Proof.
  apply Forall_forall. intros w Hw. apply list_elem_of_In in Hw.
  now apply filter_In in Hw as [_ Hw].
Qed.

Lemma filter_truthy_id l :
  Forall (fun w => PyStr.truthy w = true) l -> List.filter PyStr.truthy l = l.
Proof.
  induction 1 as [|w l Hw _ IH]; [reflexivity|]. cbn. now rewrite Hw, IH.
Qed.

Lemma truthy_true w : w <> EmptyString -> PyStr.truthy w = true.
Proof. destruct w; [contradiction | reflexivity]. Qed.

End SplitJoin.

Section Defaults.

Implicit Types (h s : heap) (b : loc) (n t T : string)
  (ps : list (loc * string)) (es : list (string * loc)).

(** With the default arguments the rewritten title is the handler name
    followed by the non-empty segments after the first. *)
Lemma composite_default n words :
  n <> EmptyString ->
  composite_title EmptyString 1 n words
  = PyStr.join ":" (n :: List.filter PyStr.truthy (drop 1 words)).
Proof.
  intros Hn. unfold composite_title.
  change 1%Z with (Z.of_nat 1). rewrite slice_from_nat.
  cbn [List.filter]. rewrite (truthy_true n Hn).
  now destruct (negb (str_in EmptyString words)).
Qed.

(** A title written with the default arguments is either a single
    segment or is rewritten to itself. *)
Lemma composite_default_stable n words :
  n <> EmptyString -> PyStr.contains ":" n = false ->
  Forall (fun w => PyStr.contains ":" w = false) words ->
  let T := composite_title EmptyString 1 n words in
  (1 <? length (PyStr.split ":" T)) = false
  \/ composite_title EmptyString 1 n (PyStr.split ":" T) = T.
Proof.
  intros Hn Hc Hwords T. subst T. rewrite (composite_default n words Hn).
  set (rest := List.filter PyStr.truthy (drop 1 words)).
  assert (Hitems : PyStr.split ":" (PyStr.join ":" (n :: rest)) = n :: rest).
  { apply split_join; [discriminate|]. constructor; [assumption|].
    apply Forall_forall. intros w Hw. apply list_elem_of_In in Hw.
    apply filter_In in Hw as [Hw _]. apply list_elem_of_In in Hw.
    rewrite Forall_forall in Hwords. apply Hwords.
    now apply (subseteq_drop 1 words). }
  rewrite Hitems. destruct rest as [|w rest'] eqn:Er; [now left|]. right.
  rewrite (composite_default n _ Hn). cbn [drop].
  rewrite filter_truthy_id; [reflexivity|].
  rewrite <- Er. apply filter_truthy_all.
Qed.

Lemma dict_set_same k v (d : dict) :
  dict_get k d = Some v -> dict_set k v d = d.
Proof.
  induction d as [|[k' v'] d IH]; cbn; [discriminate|].
  destruct (String.eqb k' k); [now intros [= ->]|].
  intros H. now rewrite IH.
Qed.

(** Visiting again a schema that already carries the title a visit with
    the default arguments returned writes nothing and returns it again. *)
Lemma resolve_title_stable h b n T :
  n <> EmptyString -> PyStr.contains ":" n = false ->
  fst (resolve_title EmptyString 1 b n h) = inr T ->
  forall s, title_of s b = Some (VStr T) ->
  resolve_title EmptyString 1 b n s = (inr T, s).
Proof.
  intros Hn Hc Hfirst s Hs.
  assert (Hstable : (1 <? length (PyStr.split ":" T)) = false
            \/ composite_title EmptyString 1 n (PyStr.split ":" T) = T).
  { unfold resolve_title, bind, getitem in Hfirst.
    destruct (h !! b) as [d|] eqn:Hd; [|discriminate].
    destruct (dict_get "title" d) as [[| | |t|]|]; try discriminate.
    unfold str_receiver, ret in Hfirst. cbv beta iota in Hfirst.
    destruct (1 <? length (PyStr.split ":" t)) eqn:E.
    - unfold setitem in Hfirst. rewrite Hd in Hfirst. cbn in Hfirst.
      injection Hfirst as <-.
      apply composite_default_stable; auto using split_segments_no_sep.
    - cbn in Hfirst. injection Hfirst as <-. now left. }
  unfold title_of in Hs. destruct (s !! b) as [d|] eqn:Hd; [|discriminate].
  rewrite (resolve_title_run EmptyString 1 s b n d T Hd Hs).
  destruct Hstable as [-> | Heq]; [reflexivity|].
  destruct (1 <? length (PyStr.split ":" T)); [|reflexivity].
  cbv zeta. rewrite Heq, (dict_set_same _ _ _ Hs).
  now rewrite list_insert_id.
Qed.

Lemma resolve_titles_again ps es h h1 s :
  Forall2 (fun p e =>
             snd e = fst p
             /\ fst (resolve_title EmptyString 1 (fst p) (snd p) h)
                = inr (fst e)
             /\ title_of h1 (fst p) = Some (VStr (fst e))) ps es ->
  Forall (fun p => snd p <> EmptyString
                   /\ PyStr.contains ":" (snd p) = false) ps ->
  (forall b, b ∈ map fst ps -> title_of s b = title_of h1 b) ->
  resolve_titles EmptyString 1 ps s = (inr es, s).
Proof.
  induction 1 as [|[b n] [T b'] ps es (Hb & Hfirst & Ht) _ IH];
    intros Hgood Hagree; [reflexivity|].
  cbn in Hb, Hfirst, Ht. subst b'.
  apply Forall_cons in Hgood as [[Hn Hc] Hgood]. cbn in Hn, Hc.
  cbn [resolve_titles]. unfold bind.
  rewrite (resolve_title_stable h b n T Hn Hc Hfirst s)
    by (rewrite Hagree; [assumption | left]).
  rewrite IH; [reflexivity | assumption |].
  intros b' Hb'. apply Hagree. now right.
Qed.

End Defaults.

(** X13. With the default arguments, distinct schema objects and handler
    names that are non-empty and hold no [":"], calling [resolve_payloads]
    again on the store it left writes no title and builds a mapping equal
    to the first one. *)
Theorem resolve_payloads_again_changes_nothing
    (payloads : list (loc * string)) (h : heap) :
  2 <= length payloads -> titled h payloads = true ->
  NoDup (map fst payloads) ->
  Forall (fun p => snd p <> EmptyString
                   /\ PyStr.contains ":" (snd p) = false) payloads ->
  exists (h' : heap) (mapping : dict),
    resolve_payloads payloads EmptyString 1 h = (inr (S (length h)), h')
    /\ h' !! length h = Some mapping
    /\ resolve_payloads payloads EmptyString 1 h'
       = (inr (S (length h')),
          h' ++ [mapping; [("oneOf", VRef (length h'))]]).
Proof.
  intros Hlen Hps Hnd Hgood.
  destruct (resolve_payloads_many EmptyString 1 payloads h Hlen Hps)
    as (es & h1 & Hes & Hlen1 & Hrun).
  destruct (loop_run EmptyString 1 payloads h Hps)
    as (es0 & h0 & Hes0 & _ & _ & _ & Hkeep & _).
  rewrite Hes in Hes0. injection Hes0 as <- <-.
  set (h' := h1 ++ [dict_of_entries es []; [("oneOf", VRef (length h))]]) in *.
  assert (Hlt : forall b, b ∈ map fst payloads -> b < length h1).
  { intros b Hb. apply list_elem_of_fmap in Hb as ([b' n] & -> & Hin).
    unfold titled in Hps. rewrite forallb_forall in Hps.
    apply list_elem_of_In in Hin. apply Hps in Hin. cbn in Hin |- *.
    rewrite Hlen1. now apply has_title_lt. }
  assert (Hagree : forall b, b ∈ map fst payloads ->
            title_of h' b = title_of h1 b).
  { intros b Hb. unfold title_of, h'.
    now rewrite lookup_app_l by (now apply Hlt). }
  assert (Hps' : titled h' payloads = true).
  { unfold titled in *. rewrite forallb_forall in *. intros [b n] Hin.
    pose proof (Hkeep b (Hps _ Hin)) as Hb. cbn [fst] in *.
    unfold has_title in *. rewrite Hagree; [assumption|].
    apply list_elem_of_fmap. exists (b, n).
    split; [reflexivity | now apply list_elem_of_In]. }
  assert (Hlen' : 2 <= length payloads) by assumption.
  destruct (resolve_payloads_many EmptyString 1 payloads h' Hlen' Hps')
    as (es2 & h2 & Hes2 & _ & Hrun2).
  pose proof (resolve_titles_each EmptyString 1 payloads h es h1 Hps Hnd Hes h
                (fun _ _ => eq_refl)) as Heach.
  rewrite (resolve_titles_again payloads es h h1 h' Heach Hgood Hagree) in Hes2.
  injection Hes2 as <- <-.
  exists h', (dict_of_entries es []).
  split; [exact Hrun|]. split; [|exact Hrun2].
  unfold h'. rewrite lookup_app_r by lia. now rewrite Hlen1, Nat.sub_diag.
Qed.

Lemma resolve_payloads_again_changes_nothing_witness :
  exists (h' : heap) (mapping : dict),
    resolve_payloads [(0, "h"); (1, "g")] EmptyString 1
      [[("title", VStr "A:B:C")]; [("title", VStr "Model")]] = (inr 3, h')
    /\ h' !! 2 = Some mapping
    /\ resolve_payloads [(0, "h"); (1, "g")] EmptyString 1 h'
       = (inr (S (length h')),
          h' ++ [mapping; [("oneOf", VRef (length h'))]]).
Proof.
  apply (resolve_payloads_again_changes_nothing [(0, "h"); (1, "g")]
           [[("title", VStr "A:B:C")]; [("title", VStr "Model")]]).
  - cbn. lia.
  - reflexivity.
  - apply (bool_decide_unpack _). vm_compute. exact I.
  - repeat constructor; cbn; discriminate.
Defined.

(** With a marker that equals only the first segment, a second call does
    change the title: the marker is no longer among the segments. *)
Example resolve_again_with_marker :
  let h := [[("title", VStr "E:B")]; [("title", VStr "Model")]] in
  let h' := snd (resolve_payloads [(0, "h"); (1, "g")] "E" 1 h) in
  title_of h' 0 = Some (VStr "h:B")
  /\ title_of (snd (resolve_payloads [(0, "h"); (1, "g")] "E" 1 h')) 0
     = Some (VStr "h:E:B").
Proof. split; reflexivity. Qed.

(* ===================================================================== *)
(** ** [resolve_payloads]: shape of the rewritten title *)
(* ===================================================================== *)

Section TitleShape.

Implicit Types (h : heap) (b : loc) (n t w : string) (l : list string).

Lemma prefix_app n w : String.prefix n (n +:+ w) = true.
Proof.
  induction n as [|a n IH]; [now destruct w|].
  rewrite append_cons. cbn [String.prefix].
  destruct (ascii_dec a a) as [_|Hne]; [exact IH | contradiction].
Qed.

Lemma prefix_join n l : String.prefix n (PyStr.join ":" (n :: l)) = true.
Proof.
  destruct l as [|w l].
  - cbn [PyStr.join]. rewrite <- (append_empty_r n) at 2. apply prefix_app.
  - change (PyStr.join ":" (n :: w :: l))
      with (n +:+ ":" +:+ PyStr.join ":" (w :: l)).
    apply prefix_app.
Qed.

(** The rewritten title starts with the handler name. *)
Lemma composite_title_prefix extra served_words n l :
  n <> EmptyString ->
  String.prefix n (composite_title extra served_words n l) = true.
Proof.
  intros Hn. unfold composite_title. cbn [List.filter].
  rewrite (truthy_true n Hn). apply prefix_join.
Qed.

Lemma slice_from_beyond {A} (sw : Z) (l : list A) :
  (Z.of_nat (length l) <= sw)%Z -> slice_from sw l = [].
Proof.
  intros Hsw. unfold slice_from.
  destruct (Z.ltb_spec sw 0) as [Hneg|_]; [lia|].
  rewrite Z.min_r, Nat2Z.id by lia. now apply drop_ge.
Qed.

Lemma slice_from_end {A} (k : nat) (l : list A) :
  0 < k ->
  slice_from (- Z.of_nat k) l = drop (length l - k) l.
Proof.
  intros Hk. unfold slice_from.
  destruct (Z.ltb_spec (- Z.of_nat k) 0) as [_|Hpos]; [|lia].
  f_equal. lia.
Qed.

End TitleShape.

(** X14. With distinct schema objects, every schema whose title had
    several segments ends up with a title that starts with the handler
    name of its pair, provided that name is not empty. *)
Theorem resolve_payloads_title_starts_with_handler
    (payloads : list (loc * string)) (extra : string) (served_words : Z)
    (h : heap) (b : loc) (handler_name t : string) :
  2 <= length payloads -> titled h payloads = true ->
  NoDup (map fst payloads) ->
  (b, handler_name) ∈ payloads -> handler_name <> EmptyString ->
  title_of h b = Some (VStr t) -> 1 < length (PyStr.split ":" t) ->
  exists T : string,
    title_of (snd (resolve_payloads payloads extra served_words h)) b
    = Some (VStr T)
    /\ String.prefix handler_name T = true.
Proof.
  intros Hlen Hps Hnd Hin Hn Ht Hmany.
  destruct (resolve_payloads_many extra served_words payloads h Hlen Hps)
    as (es & h1 & Hes & Hlen1 & Hrun).
  pose proof (resolve_titles_each extra served_words payloads h es h1
                Hps Hnd Hes h (fun _ _ => eq_refl)) as Heach.
  apply list_elem_of_lookup in Hin as [i Hi].
  destruct (Forall2_lookup_l _ _ _ _ _ Heach Hi) as ([T b'] & _ & _ & Hfirst & HT).
  cbn [fst snd] in Hfirst, HT.
  exists T. rewrite Hrun. cbn [snd]. split.
  - unfold title_of in *. destruct (h1 !! b) as [d|] eqn:Hd; [|discriminate].
    now rewrite (lookup_app_l_Some _ _ _ _ Hd).
  - unfold title_of in Ht. destruct (h !! b) as [d|] eqn:Hd; [|discriminate].
    rewrite (resolve_title_run extra served_words h b handler_name d t Hd Ht)
      in Hfirst.
    apply Nat.ltb_lt in Hmany. rewrite Hmany in Hfirst. cbn in Hfirst.
    injection Hfirst as <-. now apply composite_title_prefix.
Qed.

Lemma resolve_payloads_title_starts_with_handler_witness :
  exists T : string,
    title_of (snd (resolve_payloads [(1, "g"); (0, "h")] "E" 1
                     [[("title", VStr "A:B")]; [("title", VStr "Model")]])) 0
    = Some (VStr T)
    /\ String.prefix "h" T = true.
Proof.
  apply (resolve_payloads_title_starts_with_handler [(1, "g"); (0, "h")] "E" 1
           [[("title", VStr "A:B")]; [("title", VStr "Model")]] 0 "h" "A:B").
  - cbn. lia.
  - reflexivity.
  - apply (bool_decide_unpack _). vm_compute. exact I.
  - apply (bool_decide_unpack _). vm_compute. exact I.
  - discriminate.
  - reflexivity.
  - cbn. lia.
Defined.

(** X15. [served_words] is never out of range. At or beyond the number of
    segments it drops them all, leaving the handler name and the marker;
    a negative [-k] keeps the last [k] segments instead of dropping the
    first ones. *)
Theorem resolve_title_served_words_bounds
    (extra : string) (h : heap) (b : loc) (handler_name t : string) :
  title_of h b = Some (VStr t) -> 1 < length (PyStr.split ":" t) ->
  let words := PyStr.split ":" t in
  let marker := if negb (str_in extra words) then extra else EmptyString in
  (forall sw : Z,
      (Z.of_nat (length words) <= sw)%Z ->
      fst (resolve_title extra sw b handler_name h)
      = inr (PyStr.join ":"
               (List.filter PyStr.truthy [handler_name; marker])))
  /\ (forall k : nat,
         0 < k ->
         fst (resolve_title extra (- Z.of_nat k) b handler_name h)
         = inr (PyStr.join ":"
                  (List.filter PyStr.truthy
                     (handler_name :: marker
                      :: drop (length words - k) words)))).
Proof.
  intros Ht Hmany words marker.
  unfold title_of in Ht. destruct (h !! b) as [d|] eqn:Hd; [|discriminate].
  apply Nat.ltb_lt in Hmany.
  split.
  - intros sw Hsw.
    rewrite (resolve_title_run extra sw h b handler_name d t Hd Ht), Hmany.
    cbn [fst]. unfold composite_title. fold words.
    now rewrite (slice_from_beyond sw words Hsw).
  - intros k Hk.
    rewrite (resolve_title_run extra _ h b handler_name d t Hd Ht), Hmany.
    cbn [fst]. unfold composite_title. fold words.
    now rewrite (slice_from_end k words Hk).
Qed.

Lemma resolve_title_served_words_bounds_witness :
  let words := PyStr.split ":" "A:B:C" in
  let marker := if negb (str_in "E" words) then "E" else EmptyString in
  (forall sw : Z,
      (Z.of_nat (length words) <= sw)%Z ->
      fst (resolve_title "E" sw 0 "h" [[("title", VStr "A:B:C")]])
      = inr (PyStr.join ":" (List.filter PyStr.truthy ["h"; marker])))
  /\ (forall k : nat,
         0 < k ->
         fst (resolve_title "E" (- Z.of_nat k) 0 "h"
                [[("title", VStr "A:B:C")]])
         = inr (PyStr.join ":"
                  (List.filter PyStr.truthy
                     ("h" :: marker :: drop (length words - k) words)))).
Proof.
  apply (resolve_title_served_words_bounds "E" [[("title", VStr "A:B:C")]]
           0 "h" "A:B:C").
  - reflexivity.
  - cbn. lia.
Defined.

(** X16. With [served_words = 0], a non-empty handler name and a marker
    that is empty or already a segment, a title without empty segment is
    kept whole and gets the handler name in front:
    the new title is [handler_name + ":" + title]. *)
Theorem resolve_title_zero_served_words_prefixes
    (extra : string) (h : heap) (b : loc) (handler_name t : string) :
  title_of h b = Some (VStr t) -> 1 < length (PyStr.split ":" t) ->
  handler_name <> EmptyString ->
  extra = EmptyString \/ extra ∈ PyStr.split ":" t ->
  Forall (fun w => w <> EmptyString) (PyStr.split ":" t) ->
  fst (resolve_title extra 0 b handler_name h)
  = inr (handler_name +:+ ":" +:+ t).
Proof.
  intros Ht Hmany Hn Hextra Hsegs.
  unfold title_of in Ht. destruct (h !! b) as [d|] eqn:Hd; [|discriminate].
  rewrite (resolve_title_run extra 0 h b handler_name d t Hd Ht).
  apply Nat.ltb_lt in Hmany as Hmany'. rewrite Hmany'. cbn [fst]. f_equal.
  unfold composite_title.
  change 0%Z with (Z.of_nat 0). rewrite slice_from_nat, drop_0.
  assert (Hmarker : PyStr.truthy
            (if negb (str_in extra (PyStr.split ":" t)) then extra
             else EmptyString) = false).
  { destruct Hextra as [-> | Hin]; [now destruct (negb _)|].
    rewrite str_in_elem, (bool_decide_eq_true_2 _ Hin). reflexivity. }
  cbn [List.filter]. rewrite (truthy_true _ Hn), Hmarker.
  rewrite filter_truthy_id.
  - destruct (PyStr.split ":" t) as [|w ws] eqn:E; [cbn in Hmany; lia|].
    change (PyStr.join ":" (handler_name :: w :: ws))
      with (handler_name +:+ ":" +:+ PyStr.join ":" (w :: ws)).
    now rewrite <- E, (join_split ":" t).
  - eapply Forall_impl; [exact Hsegs|]. intros w Hw. now apply truthy_true.
Qed.

Lemma resolve_title_zero_served_words_prefixes_witness :
  fst (resolve_title EmptyString 0 0 "h" [[("title", VStr "A:B")]])
  = inr ("h" +:+ ":" +:+ "A:B").
Proof.
  apply (resolve_title_zero_served_words_prefixes EmptyString
           [[("title", VStr "A:B")]] 0 "h" "A:B").
  - reflexivity.
  - cbn. lia.
  - discriminate.
  - now left.
  - repeat constructor; discriminate.
Defined.

(* ===================================================================== *)
(** ** [to_camelcase]: word by word *)
(* ===================================================================== *)

Section CamelWords.

Implicit Types (c : ascii) (s w : string) (l names : list string).

(** The title-casing of the code and the one of the alphabets write the
    same character everywhere. *)
Lemma title_char_table (b : bool) c :
  (if PyStr.is_cased c
   then (if b then PyStr.to_lower c else PyStr.to_upper c) else c)
  = (if b then lower_of c else upper_of c)
  /\ PyStr.is_cased c = is_letter c.
Proof.
  destruct b; destruct c as [[] [] [] [] [] [] [] []]; split; reflexivity.
Qed.

Lemma title_from_capitalize (b : bool) w :
  PyStr.title_from b w = capitalize_from b w.
Proof.
  revert b. induction w as [|c w IH]; intros b; [reflexivity|].
  cbn [PyStr.title_from capitalize_from].
  destruct (title_char_table b c) as [Hc Hl]. rewrite <- Hc, <- Hl.
  destruct (PyStr.is_cased c); now rewrite IH.
Qed.

Lemma split_space_underscore s :
  PyStr.split " " (PyStr.replace "_" " " s) = cut_words s.
Proof.
  induction s as [|c s IH]; [reflexivity|].
  cbn [PyStr.replace cut_words].
  destruct (Ascii.eqb c "_") eqn:Eu.
  - rewrite append_cons. change (EmptyString +:+ ?x) with x.
    cbn [PyStr.split Ascii.eqb Bool.eqb]. rewrite IH, orb_true_r. reflexivity.
  - rewrite orb_false_r. cbn [PyStr.split]. now rewrite IH.
Qed.

Lemma split_app c s w :
  PyStr.split c (s +:+ String c w) = PyStr.split c s ++ PyStr.split c w.
Proof.
  induction s as [|a s IH].
  - change (EmptyString +:+ String c w) with (String c w).
    cbn [PyStr.split]. now rewrite Ascii.eqb_refl.
  - rewrite append_cons. cbn [PyStr.split]. rewrite IH.
    destruct (Ascii.eqb a c); [reflexivity|].
    destruct (PyStr.split c s) as [|x xs] eqn:E;
      [now destruct (split_not_nil _ _ E) | reflexivity].
Qed.

(** The words of the joined text are the words of the names. *)
Lemma words_of_names names :
  names <> [] ->
  PyStr.split " " (PyStr.replace "_" " " (PyStr.join " " names))
  = flat_map cut_words names.
Proof.
  induction names as [|w names IH]; [contradiction|]. intros _.
  destruct names as [|w' names].
  - cbn [PyStr.join flat_map]. now rewrite app_nil_r, split_space_underscore.
  - change (PyStr.join " " (w :: w' :: names))
      with (w +:+ " " +:+ PyStr.join " " (w' :: names)).
    rewrite !replace_app.
    change (PyStr.replace "_" " " " ") with (String " " EmptyString).
    rewrite append_cons. change (EmptyString +:+ ?x) with x.
    rewrite split_app, split_space_underscore, IH by discriminate.
    reflexivity.
Qed.

Lemma join_concat sep l : PyStr.join sep l = String.concat sep l.
Proof.
  induction l as [|w l IH]; [reflexivity|].
  destruct l as [|w' l]; [reflexivity|].
  change (PyStr.join sep (w :: w' :: l))
    with (w +:+ sep +:+ PyStr.join sep (w' :: l)).
  now rewrite IH.
Qed.

Lemma to_camelcase_by_words names :
  to_camelcase names = camelcase_by_words names.
Proof.
  unfold to_camelcase, camelcase_by_words, PyStr.title.
  rewrite title_by_words.
  destruct (PyStr.split " " (PyStr.replace "_" " " (PyStr.join " " names)))
    as [|w ws] eqn:Es; [now destruct (split_not_nil _ _ Es)|].
  cbn [map]. now rewrite join_empty_cons.
Qed.

End CamelWords.

(** C7. On ASCII names, [to_camelcase] joins the names with spaces, turns
    underscores into spaces, title-cases each word and removes the spaces:
    its result is the words of the names (the pieces between spaces and
    underscores), each with its letters in upper case where they do not
    follow a letter and in lower case where they do, written one after the
    other; it holds neither a space nor an underscore.
    [to_camelcase("order_created")] is ["OrderCreated"],
    [to_camelcase("a", "b_c")] is ["ABC"], and upper-case input is
    lowered inside words. *)
Theorem to_camelcase_words :
  (forall names : list string,
      forallb is_ascii names = true ->
      to_camelcase names = camelcase_as_specified names
      /\ to_camelcase names = camelcase_by_words names
      /\ PyStr.contains " " (to_camelcase names) = false
      /\ PyStr.contains "_" (to_camelcase names) = false)
  /\ to_camelcase ["order_created"] = "OrderCreated"
  /\ to_camelcase ["a"; "b_c"] = "ABC"
  /\ to_camelcase ["ORDER_created"; "x1y"] = "OrderCreatedX1Y".
Proof.
  split; [|repeat split; reflexivity].
  intros names _. split; [|split; [apply to_camelcase_by_words|split]].
  - destruct names as [|w names]; [reflexivity|].
    rewrite to_camelcase_by_words. unfold camelcase_by_words, camelcase_as_specified.
    rewrite words_of_names by discriminate.
    rewrite join_concat. f_equal.
    apply map_ext. intros x. apply title_from_capitalize.
  - apply delete_removes.
  - unfold to_camelcase, PyStr.title. apply delete_keeps_absent.
    rewrite title_keeps_absent by (right; reflexivity).
    apply replace_removes. reflexivity.
Qed.

Lemma to_camelcase_words_witness :
  to_camelcase ["order_created"; "Http_API"]
  = camelcase_as_specified ["order_created"; "Http_API"]
  /\ to_camelcase ["order_created"; "Http_API"]
     = camelcase_by_words ["order_created"; "Http_API"]
  /\ PyStr.contains " " (to_camelcase ["order_created"; "Http_API"]) = false
  /\ PyStr.contains "_" (to_camelcase ["order_created"; "Http_API"]) = false.
Proof.
  destruct to_camelcase_words as [H _].
  apply (H ["order_created"; "Http_API"]). reflexivity.
Defined.
